(** * PacketPlayground backend: the data-access layer [GenericDAL]

    A shallow embedding of [backend/src/database.py]: the connection URL,
    the rewriting of risky column type changes ([add_using_clause]), the
    work-queue loop that flattens and applies the migration operations, the
    guarded one-time initialisation of [GenericDAL.__init__] and the
    [remove] accessors.

    SQLAlchemy, Alembic and PostgreSQL are libraries the program calls.
    Their part is kept as small as the program's use of them needs: the
    classes the module imports, the attributes the code reads, and for
    PostgreSQL the handful of SQL functions that the generated casting
    expressions mention. *)

From Stdlib Require Import String Ascii List ZArith NArith Bool Arith Lia.
From Stdlib Require Import Permutation.
From Equations Require Import Equations.
Import ListNotations.
Local Open Scope string_scope.
Local Open Scope list_scope.
Set Warnings "-register-all".

(** ** SQLAlchemy column types

    The type classes [database.py] imports, and the classes of SQLAlchemy
    that derive from the two that [add_using_clause] tests with
    [isinstance] on the old type: [SmallInteger], [BigInteger], [SMALLINT]
    and [BIGINT] derive from [Integer] as [INTEGER] does, and [UnicodeText],
    [TEXT] and [CLOB] from [Text].  A column the schema declares with one of
    them, or that reflection reports as one of them, takes the same branch
    as an [Integer] or a [Text] column.  The subclass relation is the one
    they have in SQLAlchemy: [SMALLINT] derives from [SmallInteger],
    [BIGINT] from [BigInteger], [Text] from [String], the PostgreSQL
    [TIMESTAMP] from [DateTime]. *)
Module sa.

Inductive TypeEngine : Set :=
| JSON | Integer | REAL | String | Text | DateTime | TIMESTAMP | INTEGER | UUID
| SmallInteger | BigInteger | SMALLINT | BIGINT
| UnicodeText | TEXT | CLOB.

Definition TypeEngine_eqb (a b : TypeEngine) : bool :=
  match a, b with
  | JSON, JSON | Integer, Integer | REAL, REAL | String, String
  | Text, Text | DateTime, DateTime | TIMESTAMP, TIMESTAMP
  | INTEGER, INTEGER | UUID, UUID
  | SmallInteger, SmallInteger | BigInteger, BigInteger
  | SMALLINT, SMALLINT | BIGINT, BIGINT
  | UnicodeText, UnicodeText | TEXT, TEXT | CLOB, CLOB => true
  | _, _ => false
  end.

(** [issubclass t c]: the class [t] is [c] or derives from it. *)
Definition issubclass (t c : TypeEngine) : bool :=
  match t, c with
  | (INTEGER | SmallInteger | BigInteger | SMALLINT | BIGINT), Integer => true
  | SMALLINT, SmallInteger => true
  | BIGINT, BigInteger => true
  | (Text | UnicodeText | TEXT | CLOB), String => true
  | (UnicodeText | TEXT | CLOB), Text => true
  | TIMESTAMP, DateTime => true
  | _, _ => TypeEngine_eqb t c
  end.

(** [isinstance v c] for an attribute that holds a type object or [None]. *)
Definition isinstance (v : option TypeEngine) (c : TypeEngine) : bool :=
  match v with
  | Some t => issubclass t c
  | None => false
  end.

End sa.

(** ** Alembic's [AlterColumnOp]

    The attributes are those of [alembic.operations.ops.AlterColumnOp].
    Several of them hold [False] for "not given", [None], [True] or a value,
    so they are Python values rather than options. *)
Inductive pyval : Set :=
| PyFalse
| PyNone
| PyTrue
| PyStr (s : string)
| PyTextClause (sql : string).   (* sqlalchemy.text(sql) *)

Record AlterColumnOp : Set := mkAlterColumnOp {
  table_name : string;
  column_name : string;
  schema : option string;
  existing_type : option sa.TypeEngine;
  existing_server_default : pyval;
  existing_nullable : option bool;
  existing_comment : option string;
  modify_nullable : option bool;
  modify_comment : pyval;
  modify_server_default : pyval;
  modify_name : option string;
  modify_type : option sa.TypeEngine;
  postgresql_using : option string      (* the dialect keyword in [kw] *)
}.

(** ** [add_using_clause] (database.py, lines 103-149) *)

(** The function returns either one operation or a Python list of them. *)
Inductive rewritten : Set :=
| OneOp (op : AlterColumnOp)
| OpList (ops : list AlterColumnOp).

Definition text_to_integer_using (column : string) : string :=
  "COALESCE(NULLIF(REGEXP_REPLACE(" ++ column
    ++ ", '[^0-9]', '', 'g'), ''), '0')::integer".

Definition integer_to_uuid_using (column : string) : string :=
  "('00000000-0000-0000-0000-' || lpad(to_hex(" ++ column
    ++ "), 12, '0'))::uuid".

Definition add_using_clause (op : AlterColumnOp) : rewritten :=
  if sa.isinstance (modify_type op) sa.Integer
     && sa.isinstance (existing_type op) sa.Text
  then
    let using_clause := text_to_integer_using (column_name op) in
    OneOp
      {| table_name := table_name op;
         column_name := column_name op;
         modify_type := modify_type op;
         existing_type := existing_type op;
         schema := schema op;
         existing_nullable := existing_nullable op;
         existing_server_default := existing_server_default op;
         existing_comment := existing_comment op;
         postgresql_using := Some using_clause;
         (* the keywords the call leaves out keep the defaults of
            [AlterColumnOp.__init__] *)
         modify_nullable := None;
         modify_comment := PyFalse;
         modify_server_default := PyFalse;
         modify_name := None |}
  else if sa.isinstance (modify_type op) sa.UUID
          && sa.isinstance (existing_type op) sa.Integer
  then
    let using_clause := integer_to_uuid_using (column_name op) in
    let drop_default_op :=
      {| table_name := table_name op;
         column_name := column_name op;
         existing_type := existing_type op;
         existing_server_default := PyTrue;
         modify_server_default := PyNone;
         schema := None; existing_nullable := None; existing_comment := None;
         modify_nullable := None; modify_comment := PyFalse;
         modify_name := None; modify_type := None;
         postgresql_using := None |} in
    let alter_type_op :=
      {| table_name := table_name op;
         column_name := column_name op;
         existing_type := existing_type op;
         modify_type := modify_type op;
         postgresql_using := Some using_clause;
         schema := None; existing_server_default := PyFalse;
         existing_nullable := None; existing_comment := None;
         modify_nullable := None; modify_comment := PyFalse;
         modify_server_default := PyFalse; modify_name := None |} in
    let set_default_op :=
      {| table_name := table_name op;
         column_name := column_name op;
         existing_type := modify_type op;
         existing_server_default := PyNone;
         modify_server_default := PyTextClause "gen_random_uuid()";
         schema := None; existing_nullable := None; existing_comment := None;
         modify_nullable := None; modify_comment := PyFalse;
         modify_name := None; modify_type := None;
         postgresql_using := None |} in
    OpList [drop_default_op; alter_type_op; set_default_op]
  else
    OneOp op.

(** ** The SQL of the casting expressions

    The two [USING] clauses are SQL text that PostgreSQL evaluates on every
    stored value of the column.  [pg.expr] is the syntax of the fragment
    they use, [pg.render] prints it back as SQL text, and [pg.eval] gives
    each function the value PostgreSQL documents for it. *)
Module pg.

(** A bracket expression that excludes one character range: [[^lo-hi]]. *)
Inductive regex : Set :=
| NotInRange (lo hi : ascii).

Inductive casttype : Set := integer | uuid.

Inductive expr : Set :=
| Col (name : string)
| Lit (s : string)                                   (* 'text' *)
| Coalesce (a b : expr)                              (* COALESCE(a, b) *)
| Nullif (a b : expr)                                (* NULLIF(a, b) *)
| RegexpReplace (src : expr) (re : regex) (repl flags : string)
| Concat (a b : expr)                                (* (a || b) *)
| Lpad (s : expr) (len : nat) (fill : string)        (* lpad(s, len, 'fill') *)
| ToHex (e : expr)                                   (* to_hex(e) *)
| Cast (e : expr) (ty : casttype).                   (* e::ty *)

Inductive value : Set :=
| Null
| TextVal (s : string)
| IntVal (n : Z)            (* a value of type integer (int4) *)
| UuidVal (s : string)      (* a uuid in its canonical text form *)
| BigIntVal (n : Z).        (* a value of type bigint (int8) *)

(** *** Printing *)

Definition quote (s : string) : string := "'" ++ s ++ "'".

Definition render_regex (re : regex) : string :=
  match re with
  | NotInRange lo hi => "[^" ++ String lo ("-" ++ String hi "]")
  end.

Fixpoint nat_digits (fuel n : nat) (acc : string) : string :=
  let acc' := String (ascii_of_nat (48 + n mod 10)) acc in
  match fuel with
  | O => acc'
  | S fuel' => if (n / 10 =? 0)%nat then acc' else nat_digits fuel' (n / 10) acc'
  end.

Definition render_nat (n : nat) : string := nat_digits n n "".

Definition render_type (ty : casttype) : string :=
  match ty with integer => "integer" | uuid => "uuid" end.

Fixpoint render (e : expr) : string :=
  match e with
  | Col name => name
  | Lit s => quote s
  | Coalesce a b => "COALESCE(" ++ render a ++ ", " ++ render b ++ ")"
  | Nullif a b => "NULLIF(" ++ render a ++ ", " ++ render b ++ ")"
  | RegexpReplace src re repl flags =>
      "REGEXP_REPLACE(" ++ render src ++ ", " ++ quote (render_regex re)
        ++ ", " ++ quote repl ++ ", " ++ quote flags ++ ")"
  | Concat a b => "(" ++ render a ++ " || " ++ render b ++ ")"
  | Lpad s len fill =>
      "lpad(" ++ render s ++ ", " ++ render_nat len ++ ", " ++ quote fill ++ ")"
  | ToHex a => "to_hex(" ++ render a ++ ")"
  | Cast a ty => render a ++ "::" ++ render_type ty
  end.

(** *** Characters and strings *)

Definition in_range (lo hi c : ascii) : bool :=
  (N_of_ascii lo <=? N_of_ascii c)%N && (N_of_ascii c <=? N_of_ascii hi)%N.

Definition is_digit (c : ascii) : bool := in_range "0" "9" c.

Definition matches (re : regex) (c : ascii) : bool :=
  match re with
  | NotInRange lo hi => negb (in_range lo hi c)
  end.

(** [regexp_replace] with flag [g]: every match is replaced.  The patterns
    of [regex] match exactly one character, so the matches are the
    characters that satisfy [matches]. *)
Fixpoint replace_all (re : regex) (repl s : string) : string :=
  match s with
  | EmptyString => EmptyString
  | String c rest =>
      if matches re c then repl ++ replace_all re repl rest
      else String c (replace_all re repl rest)
  end.

(** Without [g] only the first match is replaced. *)
Fixpoint replace_first (re : regex) (repl s : string) : string :=
  match s with
  | EmptyString => EmptyString
  | String c rest =>
      if matches re c then repl ++ rest
      else String c (replace_first re repl rest)
  end.

Fixpoint has_flag (f : ascii) (flags : string) : bool :=
  match flags with
  | EmptyString => false
  | String c rest => Ascii.eqb c f || has_flag f rest
  end.

Definition regexp_replace (s : string) (re : regex) (repl flags : string)
  : string :=
  if has_flag "g" flags then replace_all re repl s
  else replace_first re repl s.

Fixpoint take (n : nat) (s : string) : string :=
  match n, s with
  | S n', String c rest => String c (take n' rest)
  | _, _ => EmptyString
  end.

(** [padding n fill cur]: [n] characters of [fill] repeated; [cur] is what is
    left of the current copy. *)
Fixpoint padding (n : nat) (fill cur : string) : string :=
  match n with
  | O => EmptyString
  | S n' =>
      match cur with
      | String c rest => String c (padding n' fill rest)
      | EmptyString =>
          match fill with
          | String c rest => String c (padding n' fill rest)
          | EmptyString => EmptyString
          end
      end
  end.

(** [lpad(s, len, fill)]: [s] filled on the left up to [len] characters, or
    cut on the right when it is longer than [len]. *)
Definition lpad (s : string) (len : nat) (fill : string) : string :=
  if (len <=? String.length s)%nat then take len s
  else padding (len - String.length s) fill fill ++ s.

(** *** Numbers *)

Definition hex_digit (d : Z) : ascii :=
  match String.get (Z.to_nat d) "0123456789abcdef" with
  | Some c => c
  | None => "0"%char
  end.

(** [to_hex] writes the digits from the least significant one and stops
    when the rest is zero; an [integer] has at most eight of them. *)
Fixpoint to_hex_loop (fuel : nat) (v : Z) (acc : string) : string :=
  match fuel with
  | O => acc
  | S fuel' =>
      let acc' := String (hex_digit (v mod 16)) acc in
      if (v / 16 =? 0)%Z then acc' else to_hex_loop fuel' (v / 16) acc'
  end.

(** [to_hex(integer)] prints the two's complement bit pattern of 32 bits. *)
Definition to_hex (n : Z) : string := to_hex_loop 8 (n mod 2 ^ 32) "".

(** [to_hex(bigint)], the overload PostgreSQL picks for a [bigint] argument,
    prints the pattern of 64 bits: up to sixteen digits. *)
Definition to_hex64 (n : Z) : string := to_hex_loop 16 (n mod 2 ^ 64) "".


Definition digit_value (c : ascii) : Z := Z.of_N (N_of_ascii c) - 48.

Fixpoint all_chars (p : ascii -> bool) (s : string) : bool :=
  match s with
  | EmptyString => true
  | String c rest => p c && all_chars p rest
  end.

Fixpoint decimal (s : string) (acc : Z) : Z :=
  match s with
  | EmptyString => acc
  | String c rest => decimal rest (10 * acc + digit_value c)
  end.

Definition int4_max : Z := 2147483647.

(** [text::integer] on a string of decimal digits: its value, or an error
    when the string is empty or the value does not fit an [integer].  Signs
    and surrounding blanks, which PostgreSQL also reads, are left out: a
    text holding anything but digits is reported as an error here. *)
Definition cast_integer (s : string) : option Z :=
  match s with
  | EmptyString => None
  | _ =>
      if all_chars is_digit s then
        let n := decimal s 0 in
        if (n <=? int4_max)%Z then Some n else None
      else None
  end.

Definition is_hex (c : ascii) : bool :=
  is_digit c || in_range "a" "f" c || in_range "A" "F" c.

Definition lower (c : ascii) : ascii :=
  if in_range "A" "Z" c then ascii_of_N (N_of_ascii c + 32) else c.

Fixpoint map_chars (f : ascii -> ascii) (s : string) : string :=
  match s with
  | EmptyString => EmptyString
  | String c rest => String (f c) (map_chars f rest)
  end.

(** The shape 8-4-4-4-12 of hexadecimal digits: [pos] counts from 0. *)
Fixpoint uuid_shape (pos : nat) (s : string) : bool :=
  match s with
  | EmptyString => (pos =? 36)%nat
  | String c rest =>
      (if ((pos =? 8) || (pos =? 13) || (pos =? 18) || (pos =? 23))%nat
       then Ascii.eqb c "-" else is_hex c)
      && uuid_shape (S pos) rest
  end.

(** [text::uuid] on the hyphenated form; the value is printed in lower
    case. *)
Definition cast_uuid (s : string) : option string :=
  if uuid_shape 0 s then Some (map_chars lower s) else None.

(** *** Evaluation

    [row] gives the stored value of each column of the row at hand.  [None]
    is an SQL error: a failed cast or a function applied to a value of the
    wrong type. *)
Definition value_eqb (a b : value) : bool :=
  match a, b with
  | TextVal s, TextVal t => String.eqb s t
  | IntVal n, IntVal m => (n =? m)%Z
  | BigIntVal n, BigIntVal m => (n =? m)%Z
  | UuidVal s, UuidVal t => String.eqb s t
  | _, _ => false
  end.

Fixpoint eval (row : string -> value) (e : expr) : option value :=
  match e with
  | Col name => Some (row name)
  | Lit s => Some (TextVal s)
  | Coalesce a b =>
      match eval row a with
      | Some Null => eval row b
      | r => r
      end
  | Nullif a b =>
      match eval row a, eval row b with
      | Some va, Some vb => Some (if value_eqb va vb then Null else va)
      | _, _ => None
      end
  | RegexpReplace src re repl flags =>
      match eval row src with
      | Some Null => Some Null
      | Some (TextVal s) => Some (TextVal (regexp_replace s re repl flags))
      | _ => None
      end
  | Concat a b =>
      match eval row a, eval row b with
      | Some (TextVal s), Some (TextVal t) => Some (TextVal (s ++ t))
      | Some Null, Some _ | Some _, Some Null => Some Null
      | _, _ => None
      end
  | Lpad s len fill =>
      match eval row s with
      | Some Null => Some Null
      | Some (TextVal t) => Some (TextVal (lpad t len fill))
      | _ => None
      end
  | ToHex a =>
      match eval row a with
      | Some Null => Some Null
      | Some (IntVal n) => Some (TextVal (to_hex n))
      | Some (BigIntVal n) => Some (TextVal (to_hex64 n))
      | _ => None
      end
  | Cast a ty =>
      match eval row a, ty with
      | Some Null, _ => Some Null
      | Some (TextVal s), integer => option_map IntVal (cast_integer s)
      | Some (TextVal s), uuid => option_map UuidVal (cast_uuid s)
      | Some (IntVal n), integer => Some (IntVal n)
      | Some (UuidVal s), uuid => Some (UuidVal s)
      | _, _ => None
      end
  end.

(** The expressions behind the two [USING] clauses. *)
Definition text_to_integer (column : string) : expr :=
  Cast
    (Coalesce
       (Nullif (RegexpReplace (Col column) (NotInRange "0" "9") "" "g")
               (Lit ""))
       (Lit "0"))
    integer.

Definition integer_to_uuid (column : string) : expr :=
  Cast
    (Concat (Lit "00000000-0000-0000-0000-")
            (Lpad (ToHex (Col column)) 12 "0"))
    uuid.

End pg.


(** A row in which the altered column holds [v]. *)
Definition stored (v : pg.value) : string -> pg.value := fun _ => v.

(** What the specification says the text-to-integer coercion computes:
    strip every character that is not a digit, read an empty result as
    zero, cast to integer. *)
Fixpoint strip_non_digits (s : string) : string :=
  match s with
  | EmptyString => EmptyString
  | String c rest =>
      if pg.is_digit c then String c (strip_non_digits rest)
      else strip_non_digits rest
  end.

Definition digits_or_zero (s : string) : string :=
  match strip_non_digits s with
  | EmptyString => "0"
  | d => d
  end.






(** ** [get_database_url] (database.py, lines 33-47) *)

Definition environ : Type := string -> option string.

Definition getenv (env : environ) (key default : string) : string :=
  match env key with
  | Some v => v
  | None => default
  end.

(** [load_dotenv()] adds the variables of the [.env] file that the process
    environment does not define yet. *)
Definition load_dotenv (dotenv env : environ) : environ :=
  fun key => match env key with
             | Some v => Some v
             | None => dotenv key
             end.

(** The function returns the URL; the second component is [os.environ] as
    [load_dotenv()] leaves it. *)
Definition get_database_url (dotenv env : environ) (async_driver : bool)
  : string * environ :=
  let env := load_dotenv dotenv env in
  let db_host := getenv env "DB_HOST" "localhost" in
  let db_user := getenv env "DB_USER" "postgres" in
  let db_pass := getenv env "DB_PASS" "postgres" in
  let db_port := getenv env "DB_PORT" "5432" in
  let db_name := getenv env "DB_NAME" "postgres" in
  let prefix := "postgresql" in
  let driver := if async_driver then "asyncpg" else "psycopg2" in
  ((prefix ++ "+" ++ driver ++ "://" ++ db_user ++ ":" ++ db_pass ++ "@"
      ++ db_host ++ ":" ++ db_port ++ "/" ++ db_name)%string,
   env).

(** SQLAlchemy reads the scheme of a URL up to [://]; the part before [+]
    names the database backend and its dialect, and [Engine.name] is the
    name of the dialect. *)
Fixpoint before (stop : ascii) (s : string) : string :=
  match s with
  | EmptyString => EmptyString
  | String c rest =>
      if Ascii.eqb c stop then EmptyString else String c (before stop rest)
  end.

Definition drivername (url : string) : string := before ":" url.

Definition get_backend_name (url : string) : string :=
  before "+" (drivername url).

Record Engine : Set := create_engine { engine_url : string }.

Definition Engine_name (e : Engine) : string :=
  get_backend_name (engine_url e).

(** ** The operation tree of Alembic

    [produce_migrations] returns an [UpgradeOps] container; the changes of a
    table are grouped in a [ModifyTableOps] container.  Both have an [ops]
    attribute; the operations themselves have none. *)
Inductive MigrateOperation : Set :=
| CreateTableOp (table : string)
| DropTableOp (table : string)
| AddColumnOp (table column : string) (type_ : sa.TypeEngine)
| DropColumnOp (table column : string)
| AlterColumn (op : AlterColumnOp)
| ModifyTableOps (table : string) (schema_ : option string)
                 (ops : list MigrateOperation)
| UpgradeOps (ops : list MigrateOperation).

(** [hasattr(elem, "ops")] together with the value of [elem.ops]. *)
Definition ops_attr (elem : MigrateOperation) : option (list MigrateOperation) :=
  match elem with
  | ModifyTableOps _ _ ops => Some ops
  | UpgradeOps ops => Some ops
  | _ => None
  end.

Definition is_ModifyTableOps (elem : MigrateOperation) : bool :=
  match elem with
  | ModifyTableOps _ _ _ => true
  | _ => false
  end.

(** [OpContainer.is_empty()] is [not self.ops]. *)
Definition is_empty (ops : list MigrateOperation) : bool :=
  match ops with
  | [] => true
  | _ :: _ => false
  end.

(** The number of nodes of a tree and of a list of trees. *)
Fixpoint op_size (elem : MigrateOperation) : nat :=
  match elem with
  | ModifyTableOps _ _ ops | UpgradeOps ops =>
      S ((fix sum (l : list MigrateOperation) : nat :=
            match l with
            | [] => 0
            | e :: r => op_size e + sum r
            end) ops)
  | _ => 1
  end.

Fixpoint forest_size (l : list MigrateOperation) : nat :=
  match l with
  | [] => 0
  | e :: r => op_size e + forest_size r
  end.

(** The children of the containers of a level, and its operations. *)
Fixpoint children (level : list MigrateOperation) : list MigrateOperation :=
  match level with
  | [] => []
  | e :: r =>
      match ops_attr e with
      | Some ops => ops ++ children r
      | None => children r
      end
  end.

Fixpoint leaves (level : list MigrateOperation) : list MigrateOperation :=
  match level with
  | [] => []
  | e :: r =>
      match ops_attr e with
      | Some _ => leaves r
      | None => e :: leaves r
      end
  end.

(** *** Breadth-first traversal, as the specification words it

    A pure traversal level by level: the operations of a level are appended
    in the order they are met, then the children of its containers form the
    next level. *)
Equations? bfs_plan (level : list MigrateOperation) : list MigrateOperation
  by wf (forest_size level) lt :=
  bfs_plan [] := [];
  bfs_plan (e :: r) := leaves (e :: r) ++ bfs_plan (children (e :: r)).
Proof.
  assert (Hbox : forall x, match ops_attr x with
                           | Some ops => op_size x = S (forest_size ops)
                           | None => op_size x = 1
                           end).
  { destruct x; reflexivity. }
  assert (Happ : forall a b,
             forest_size (a ++ b) = forest_size a + forest_size b).
  { induction a as [|x a IH]; intros b; cbn [app forest_size];
      [reflexivity | rewrite IH; lia]. }
  assert (Hch : forall l, forest_size (children l) <= forest_size l).
  { induction l as [|x l IH]; cbn [children forest_size]; [lia |].
    specialize (Hbox x). destruct (ops_attr x); [rewrite Happ |]; lia. }
  cbn [children forest_size].
  specialize (Hbox e). specialize (Hch r).
  destruct (ops_attr e); [rewrite Happ |]; lia.
Qed.

(** ** Exceptions and outcomes *)
Inductive exn : Set :=
| DatabaseError                      (* a statement the database rejects *)
| InvalidRequestError                (* the session refuses the object *)
| AttributeError (message : string)
| TypeError (message : string).

Definition str_exn (e : exn) : string :=
  match e with
  | DatabaseError => "DatabaseError"
  | InvalidRequestError => "InvalidRequestError"
  | AttributeError m => m
  | TypeError m => m
  end.

(** A call either returns a value or raises; the state goes on in both
    cases. *)
Inductive outcome (A St : Type) : Type :=
| Return (a : A) (st : St)
| Raise (e : exn) (st : St).
Arguments Return {A St} a st.
Arguments Raise {A St} e st.

(** The state a call leaves, whether it returned or raised. *)
Definition state_of {A St} (r : outcome A St) : St :=
  match r with
  | Return _ st => st
  | Raise _ st => st
  end.

Definition bind {A B St} (m : St -> outcome A St) (k : A -> St -> outcome B St)
  : St -> outcome B St :=
  fun st => match m st with
            | Return a st' => k a st'
            | Raise e st' => Raise e st'
            end.

Notation "m >> k" := (bind m (fun _ => k)) (at level 61, left associativity).

(** ** The work queue of [__update_schema] (database.py, lines 174-194)

    [stack] is the Python list; [pop(0)] takes its head and [extend] appends
    at its end.  The two places where operations are invoked are the
    parameters [batch] (lines 180-182) and [leaf] (lines 186-194). *)
Section WorkQueue.
Context {St : Type}.
Variable batch : MigrateOperation -> St -> outcome unit St.
Variable leaf : MigrateOperation -> St -> outcome unit St.

Equations? work_queue (use_batch : bool) (stack : list MigrateOperation)
  (st : St) : outcome unit St by wf (forest_size stack) lt :=
  (* while stack: *)
  work_queue use_batch [] st := Return tt st;
  (* elem = stack.pop(0) *)
  work_queue use_batch (elem :: rest) st
    with (use_batch && is_ModifyTableOps elem) := {
    (* if use_batch and isinstance(elem, ModifyTableOps): *)
    | true with batch elem st := {
        | Return _ st' := work_queue use_batch rest st';
        | Raise e st' := Raise e st' };
    | false with Equations.Prop.Logic.inspect (ops_attr elem) := {
        (* elif hasattr(elem, "ops"): stack.extend(elem.ops) *)
        | exist _ (Some ops) Heq := work_queue use_batch (rest ++ ops) st;
        (* else: *)
        | exist _ None _ with leaf elem st := {
            | Return _ st' := work_queue use_batch rest st';
            | Raise e st' := Raise e st' } } }.
Proof.
  - destruct elem; simpl; lia.
  - assert (Happ : forall a b,
               forest_size (a ++ b) = forest_size a + forest_size b).
    { induction a as [|x a IH]; intros b; cbn [app forest_size];
        [reflexivity | rewrite IH; lia]. }
    rewrite Happ. cbn [forest_size].
    assert (Hbox : op_size elem = S (forest_size ops)).
    { destruct elem; simpl in Heq; try discriminate;
        injection Heq as <-; reflexivity. }
    lia.
  - destruct elem; simpl; lia.
Qed.

(** A [for] loop over operations: they are applied one after the other, up
    to the first that raises. *)
Fixpoint run_plan (plan : list MigrateOperation) (st : St) : outcome unit St :=
  match plan with
  | [] => Return tt st
  | op :: rest =>
      match leaf op st with
      | Return _ st' => run_plan rest st'
      | Raise e st' => Raise e st'
      end
  end.

End WorkQueue.

(** What lines 186-194 hand to [operations.invoke] for one operation of the
    tree, and the whole plan of a migration: the operations in breadth-first
    order, each one rewritten. *)
Definition expand (elem : MigrateOperation) : list MigrateOperation :=
  match elem with
  | AlterColumn a =>
      match add_using_clause a with
      | OpList ops => map AlterColumn ops
      | OneOp op => [AlterColumn op]
      end
  | _ => [elem]
  end.

Definition migration_plan (upgrade_ops : list MigrateOperation)
  : list MigrateOperation :=
  flat_map expand (bfs_plan [UpgradeOps upgrade_ops]).

(** ** Name mangling and the namespace of the class

    Inside the body of [class GenericDAL] an identifier that starts with two
    underscores and does not end with two is rewritten by the compiler to
    [_GenericDAL] followed by the identifier. *)
Definition starts_with (p s : string) : bool :=
  String.eqb (substring 0 (String.length p) s) p.

Definition ends_with (p s : string) : bool :=
  String.eqb (substring (String.length s - String.length p) (String.length p) s) p.

Definition mangle (class name : string) : string :=
  if starts_with "__" name && negb (ends_with "__" name)
  then "_" ++ class ++ name
  else name.

(** What a name of the class body is bound to. *)
Inductive member : Set :=
| ClassVar          (* initialized, lock, SyncEngine, ... *)
| Constructor       (* __init__ *)
| UpdateSchema      (* __update_schema *)
| SeedDatabase      (* __seed_database *)
| Accessor.         (* add, update, remove, async_add, ... *)

(** Every name the class body of [GenericDAL] binds (lines 59-284), in
    source order, as it is stored in the class namespace. *)
Definition GenericDAL_dict : list (string * member) :=
  [ ("initialized", ClassVar); ("lock", ClassVar);
    ("SyncEngine", ClassVar); ("SyncSession", ClassVar);
    ("AsyncEngine", ClassVar); ("AsyncSession", ClassVar);
    ("__init__", Constructor);
    (mangle "GenericDAL" "__update_schema", UpdateSchema);
    (mangle "GenericDAL" "__seed_database", SeedDatabase);
    ("add", Accessor); ("update", Accessor); ("remove", Accessor);
    ("async_add", Accessor); ("async_get", Accessor);
    ("async_update", Accessor); ("async_remove", Accessor) ].

Fixpoint class_getattr (dict : list (string * member)) (name : string)
  : option member :=
  match dict with
  | [] => None
  | (k, v) :: rest => if String.eqb k name then Some v else class_getattr rest name
  end.

(** ** What the program does to the world *)
Inductive event : Set :=
| CreateEngine (url : string)
| CreateAsyncEngine (url : string)
| SessionExecute (ddl : string)
| SessionDelete
| SessionCommit
| Reflect
| CreateAll
| Connect (url : string)
| Begin
| Commit
| Rollback
| Invoke (op : MigrateOperation)
| BatchAlterTable (table : string) (schema_ : option string)
| BatchInvoke (op : MigrateOperation)
| LogInfo (message : string)
| LogError (message : string).

Definition is_Begin (ev : event) : bool :=
  match ev with Begin => true | _ => false end.
Definition is_Commit (ev : event) : bool :=
  match ev with Commit => true | _ => false end.
Definition is_Rollback (ev : event) : bool :=
  match ev with Rollback => true | _ => false end.
Definition is_LogError (ev : event) : bool :=
  match ev with LogError _ => true | _ => false end.
Definition is_batch (ev : event) : bool :=
  match ev with BatchAlterTable _ _ | BatchInvoke _ => true | _ => false end.

Definition count (p : event -> bool) (tr : list event) : nat :=
  length (filter p tr).

(** The operations handed to [operations.invoke], in order. *)
Fixpoint invoked (tr : list event) : list MigrateOperation :=
  match tr with
  | [] => []
  | Invoke op :: rest => op :: invoked rest
  | _ :: rest => invoked rest
  end.

Section Program.

(** The database and the files around the process are given:
    - [database], the structure and content of the live database;
    - [entity], the mapped objects handed to the accessors;
    - [dotenv], the content of the [.env] file;
    - [prepare], what the statements that precede the migration
      (lines 151-158: session settings, [reflect], [create_all]) make of
      the database, [None] when one of them raises;
    - [produce_migrations], the operations Alembic finds between the live
      database and the declared metadata;
    - [apply_ddl], what the DDL of one operation makes of the database,
      [None] when the database rejects it;
    - [attached], whether a session accepts to delete the object;
    - [delete_row], what flushing the deletion makes of the database,
      [None] when it raises. *)
Variable database : Type.
Variable entity : Type.
Variable dotenv : environ.
Variable prepare : database -> option database.
Variable produce_migrations : database -> list MigrateOperation.
Variable apply_ddl : MigrateOperation -> database -> option database.
Variable attached : entity -> bool.
Variable delete_row : entity -> database -> option database.

(** The class attributes of [GenericDAL], the process environment, the
    database with the transaction of the administrative connection, and
    the events so far (oldest first). *)
Record World : Type := mkWorld {
  initialized : bool;
  SyncEngine : option Engine;
  SyncSession : option Engine;      (* the sessionmaker and its bind *)
  AsyncEngine : option Engine;
  AsyncSession : option Engine;
  os_environ : environ;
  live : database;
  txn : option database;
  trace : list event
}.

Definition set_initialized (b : bool) (w : World) : World :=
  mkWorld b (SyncEngine w) (SyncSession w) (AsyncEngine w) (AsyncSession w)
          (os_environ w) (live w) (txn w) (trace w).
Definition set_sync (e : Engine) (w : World) : World :=
  mkWorld (initialized w) (Some e) (Some e) (AsyncEngine w) (AsyncSession w)
          (os_environ w) (live w) (txn w) (trace w).
Definition set_async (e : Engine) (w : World) : World :=
  mkWorld (initialized w) (SyncEngine w) (SyncSession w) (Some e) (Some e)
          (os_environ w) (live w) (txn w) (trace w).
Definition set_environ (env : environ) (w : World) : World :=
  mkWorld (initialized w) (SyncEngine w) (SyncSession w) (AsyncEngine w)
          (AsyncSession w) env (live w) (txn w) (trace w).
Definition set_live (s : database) (w : World) : World :=
  mkWorld (initialized w) (SyncEngine w) (SyncSession w) (AsyncEngine w)
          (AsyncSession w) (os_environ w) s (txn w) (trace w).
Definition set_txn (t : option database) (w : World) : World :=
  mkWorld (initialized w) (SyncEngine w) (SyncSession w) (AsyncEngine w)
          (AsyncSession w) (os_environ w) (live w) t (trace w).
Definition emit (ev : event) (w : World) : World :=
  mkWorld (initialized w) (SyncEngine w) (SyncSession w) (AsyncEngine w)
          (AsyncSession w) (os_environ w) (live w) (txn w) (trace w ++ [ev]).

Definition M (A : Type) : Type := World -> outcome A World.
Definition ret {A} (a : A) : M A := fun w => Return a w.
Definition raise {A} (e : exn) : M A := fun w => Raise e w.
Definition tell (ev : event) : M unit := fun w => Return tt (emit ev w).

(** *** The administrative connection *)

(** [conn.begin()] *)
Definition conn_begin (w : World) : World :=
  emit Begin (set_txn (Some (live w)) w).

(** [trans.commit()] *)
Definition trans_commit : M unit := fun w =>
  Return tt (emit Commit
               match txn w with
               | Some s => set_txn None (set_live s w)
               | None => w
               end).

(** [trans.rollback()] *)
Definition trans_rollback (w : World) : World :=
  emit Rollback (set_txn None w).

(** One operation run on the connection: inside the transaction when one
    is open, on the database itself otherwise. *)
Definition run_ddl (op : MigrateOperation) : M unit := fun w =>
  match txn w with
  | Some s =>
      match apply_ddl op s with
      | Some s' => Return tt (set_txn (Some s') w)
      | None => Raise DatabaseError w
      end
  | None =>
      match apply_ddl op (live w) with
      | Some s' => Return tt (set_live s' w)
      | None => Raise DatabaseError w
      end
  end.

(** [operations.invoke(op)] *)
Definition invoke (op : MigrateOperation) : M unit :=
  tell (Invoke op) >> run_ddl op.

(** [batch_ops.invoke(op)] *)
Definition batch_invoke (op : MigrateOperation) : M unit :=
  tell (BatchInvoke op) >> run_ddl op.

(** Lines 180-182: the operations of a table inside [batch_alter_table]. *)
Definition invoke_batch (elem : MigrateOperation) : M unit :=
  match elem with
  | ModifyTableOps table schema_ ops =>
      tell (BatchAlterTable table schema_) >> run_plan batch_invoke ops
  | _ => ret tt
  end.

(** Lines 186-194: an operation without [ops]. *)
Definition invoke_leaf (elem : MigrateOperation) : M unit :=
  match elem with
  | AlterColumn a =>
      match add_using_clause a with
      | OpList ops => run_plan invoke (map AlterColumn ops)
      | OneOp op => invoke (AlterColumn op)
      end
  | _ => invoke elem
  end.

(** [use_batch = GenericDAL.SyncEngine.name == "sqlite"] *)
Definition use_batch_of (w : World) : outcome bool World :=
  match SyncEngine w with
  | Some e => Return (String.eqb (Engine_name e) "sqlite") w
  | None =>
      Raise (AttributeError "'NoneType' object has no attribute 'name'") w
  end.

(** Lines 165-196: the body of the [try]. *)
Definition migrate_body : M unit := fun w =>
  let migrations := produce_migrations (live w) in
  ((if negb (is_empty migrations) then
      tell (LogInfo "Updating schema...") >>
      bind use_batch_of (fun use_batch =>
        work_queue invoke_batch invoke_leaf use_batch [UpgradeOps migrations])
    else ret tt) >> trans_commit) w.

(** Lines 161-200: the connection, the transaction, [try] and [except
    Exception].  Every exception of the model is an [Exception]. *)
Definition migrate : M unit := fun w =>
  let (url, env) := get_database_url dotenv (os_environ w) false in
  let w := emit (Connect url) (set_environ env w) in
  let w := conn_begin w in
  match migrate_body w with
  | Return _ w => Return tt (emit (LogInfo "Schema updated") w)
  | Raise e w =>
      let w := trans_rollback w in
      let w := emit (LogError ("An error occurred during migration: "
                                 ++ str_exn e)) w in
      Return tt (emit (LogInfo "Schema updated") w)
  end.

(** [__update_schema] (lines 102-202) *)
Definition update_schema : M unit := fun w =>
  match SyncSession w with
  | None => Raise (TypeError "'NoneType' object is not callable") w
  | Some _ =>
      match prepare (live w) with
      | None => Raise DatabaseError w
      | Some s =>
          (tell (SessionExecute "SET client_encoding TO 'UTF8'") >>
           tell (SessionExecute "CREATE EXTENSION IF NOT EXISTS pgcrypto") >>
           tell SessionCommit >>
           tell (LogInfo "Binding schema to engine...") >>
           tell Reflect >>
           tell CreateAll >>
           tell (LogInfo "Trying to update schema...") >>
           migrate >>
           tell (LogInfo "Schema is ready")) (set_live s w)
      end
  end.

(** [__seed_database] (lines 204-206): a session opened and closed. *)
Definition seed_database : M unit := fun w =>
  match SyncSession w with
  | None => Raise (TypeError "'NoneType' object is not callable") w
  | Some _ => Return tt w
  end.

(** [GenericDAL.<name>(self)] written inside the class body: the name is
    mangled, looked up in the class, and the method it is bound to is
    called. *)
Definition call_private (name : string) : M unit :=
  let mangled := mangle "GenericDAL" name in
  match class_getattr GenericDAL_dict mangled with
  | Some UpdateSchema => update_schema
  | Some SeedDatabase => seed_database
  | Some _ => raise (TypeError ("'" ++ mangled ++ "' is not a method of self"))
  | None =>
      raise (AttributeError ("type object 'GenericDAL' has no attribute '"
                               ++ mangled ++ "'"))
  end.

(** [GenericDAL.__init__] (lines 66-100), run from its first line to its
    last with no other thread in between; [sync_step] further down splits
    lines 67-79 into the steps another thread can come between. *)
Definition ensure_sync_session (w : World) : World :=
  match SyncSession w with
  | Some _ => w
  | None =>
      let (url, env) := get_database_url dotenv (os_environ w) false in
      emit (CreateEngine url) (set_sync (create_engine url) (set_environ env w))
  end.

Definition ensure_async_session (w : World) : World :=
  match AsyncSession w with
  | Some _ => w
  | None =>
      let (url, env) := get_database_url dotenv (os_environ w) true in
      emit (CreateAsyncEngine url)
           (set_async (create_engine url) (set_environ env w))
  end.

Definition GenericDAL_init : M unit := fun w =>
  let w := ensure_sync_session w in
  let w := ensure_async_session w in
  if negb (initialized w) then
    (* with GenericDAL.lock: *)
    if negb (initialized w) then
      (call_private "__update_schema" >>
       call_private "__seed_database" >>
       call_private "__init_cron" >>
       (fun w => Return tt (set_initialized true w))) w
    else Return tt w
  else Return tt w.

(** *** The accessors [remove] and [async_remove] *)

(** [session.delete(obj)] *)
Definition session_delete (obj : entity) : M unit := fun w =>
  if attached obj then Return tt (emit SessionDelete w)
  else Raise InvalidRequestError w.

(** [session.commit()]: the deletion reaches the database or raises. *)
Definition session_commit (obj : entity) : M unit := fun w =>
  match delete_row obj (live w) with
  | Some s => Return tt (emit SessionCommit (set_live s w))
  | None => Raise DatabaseError w
  end.

(** [remove] (lines 223-227) *)
Definition remove (obj : entity) : M bool := fun w =>
  match SyncSession w with
  | None => Raise (TypeError "'NoneType' object is not callable") w
  | Some _ =>
      (session_delete obj >> session_commit obj >> ret true) w
  end.

(** [async_remove] (lines 280-284); each [await] runs to its end before
    the next statement. *)
Definition async_remove (obj : entity) : M bool := fun w =>
  match AsyncSession w with
  | None => Raise (TypeError "'NoneType' object is not callable") w
  | Some _ =>
      (session_delete obj >> session_commit obj >> ret true) w
  end.

(** The class right after its definition (lines 59-64). *)
Definition class_defined (env : environ) (db : database) : World :=
  mkWorld false None None None None env db None [].

(** The worlds a run of the program goes through: constructions of
    [GenericDAL] and calls of the accessors, whatever they return. *)
Inductive reachable : World -> Prop :=
| reach_start env db : reachable (class_defined env db)
| reach_init w : reachable w -> reachable (state_of (GenericDAL_init w))
| reach_remove obj w : reachable w -> reachable (state_of (remove obj w))
| reach_async_remove obj w :
    reachable w -> reachable (state_of (async_remove obj w)).

(** The database after the operations of a plan, [None] as soon as one
    is rejected. *)
Fixpoint apply_all (plan : list MigrateOperation) (s : database)
  : option database :=
  match plan with
  | [] => Some s
  | op :: rest =>
      match apply_ddl op s with
      | Some s' => apply_all rest s'
      | None => None
      end
  end.

(** Every engine the class holds is a PostgreSQL engine. *)
Definition postgres_engine (w : World) : Prop :=
  forall e, SyncEngine w = Some e -> Engine_name e = "postgresql".

(** [w'] comes after [w]: the class attributes are the same and the
    trace has grown by events that satisfy [Q]. *)
Definition after (Q : event -> Prop) (w w' : World) : Prop :=
  initialized w' = initialized w
  /\ SyncEngine w' = SyncEngine w
  /\ SyncSession w' = SyncSession w
  /\ AsyncEngine w' = AsyncEngine w
  /\ AsyncSession w' = AsyncSession w
  /\ exists evs, trace w' = trace w ++ evs /\ Forall Q evs.

End Program.

Arguments initialized {database}.
Arguments SyncEngine {database}.
Arguments SyncSession {database}.
Arguments AsyncEngine {database}.
Arguments AsyncSession {database}.
Arguments os_environ {database}.
Arguments live {database}.
Arguments txn {database}.
Arguments trace {database}.
Arguments set_initialized {database}.
Arguments set_sync {database}.
Arguments set_async {database}.
Arguments set_environ {database}.
Arguments set_live {database}.
Arguments set_txn {database}.
Arguments emit {database}.
Arguments tell {database}.
Arguments ret {database A}.
Arguments raise {database A}.
Arguments conn_begin {database}.
Arguments trans_commit {database}.
Arguments trans_rollback {database}.
Arguments run_ddl {database}.
Arguments invoke {database}.
Arguments batch_invoke {database}.
Arguments invoke_batch {database}.
Arguments invoke_leaf {database}.
Arguments use_batch_of {database}.
Arguments migrate_body {database}.
Arguments migrate {database}.
Arguments update_schema {database}.
Arguments seed_database {database}.
Arguments call_private {database}.
Arguments ensure_sync_session {database}.
Arguments ensure_async_session {database}.
Arguments GenericDAL_init {database}.
Arguments class_defined {database}.
Arguments apply_all {database}.
Arguments after {database}.
Arguments postgres_engine {database}.
Arguments session_delete {database entity}.
Arguments session_commit {database entity}.
Arguments remove {database entity}.
Arguments async_remove {database entity}.
Arguments reachable {database entity}.

(** A small database for examples: its state is the list of the operations
    applied so far; dropping a table is rejected; the declared metadata
    asks for one column change and one new table until they are there. *)
Module Demo.

Definition database : Type := list MigrateOperation.

Definition port_to_integer : AlterColumnOp :=
  {| table_name := "device"; column_name := "port"; schema := None;
     existing_type := Some sa.Text; existing_server_default := PyFalse;
     existing_nullable := Some true; existing_comment := None;
     modify_nullable := None; modify_comment := PyFalse;
     modify_server_default := PyFalse; modify_name := None;
     modify_type := Some sa.Integer; postgresql_using := None |}.



Definition label_to_string : AlterColumnOp :=
  {| table_name := "device"; column_name := "label"; schema := None;
     existing_type := Some sa.Text; existing_server_default := PyFalse;
     existing_nullable := Some true; existing_comment := None;
     modify_nullable := None; modify_comment := PyFalse;
     modify_server_default := PyFalse; modify_name := None;
     modify_type := Some sa.String; postgresql_using := None |}.

Definition apply_ddl (op : MigrateOperation) (s : database) : option database :=
  match op with
  | DropTableOp _ => None
  | _ => Some (s ++ [op])
  end.

Definition upgrade : list MigrateOperation :=
  [ ModifyTableOps "device" None
      [AlterColumn port_to_integer; AddColumnOp "device" "vlan" sa.Integer];
    CreateTableOp "link" ].

Definition produce_migrations (s : database) : list MigrateOperation :=
  match s with
  | [] => upgrade
  | _ => []
  end.

(** Nothing to migrate, whatever the database holds. *)
Definition no_changes (s : database) : list MigrateOperation := [].

(** A plan whose second operation the database rejects. *)
Definition failing (s : database) : list MigrateOperation :=
  [CreateTableOp "link"; DropTableOp "ghost"; CreateTableOp "late"].

Definition dotenv : environ := fun _ => None.
Definition environment : environ :=
  fun key => if String.eqb key "DB_HOST" then Some "db" else None.
Definition prepare (s : database) : option database := Some s.

Definition entity : Type := nat.
Definition attached (obj : entity) : bool := true.
Definition delete_row (obj : entity) (s : database) : option database := Some s.

Definition start : World database := class_defined environment [].

Definition construct (diff : database -> list MigrateOperation)
  : World database -> outcome unit (World database) :=
  GenericDAL_init dotenv prepare diff apply_ddl.

(** The class once both sessions are there. *)
Definition ready : World database :=
  ensure_async_session dotenv (ensure_sync_session dotenv start).

(** An object no session accepts to delete. *)
Definition detached (obj : entity) : bool := false.

(** A row that other rows still reference. *)
Definition referenced (obj : entity) (s : database) : option database := None.

End Demo.


(** * The rest of the backend

    What follows covers code that sits beside the migration: the reading
    accessor [async_get] of [database.py], the context manager of
    [redis.py] and the merging of the Swagger UI parameters in
    [swagger.py], with a few more notions about the trees and the traces
    defined above. *)

(** Every operation of a tree, left to right and depth first. *)
Fixpoint dfs_leaves (elem : MigrateOperation) : list MigrateOperation :=
  match elem with
  | ModifyTableOps _ _ ops | UpgradeOps ops =>
      (fix go (l : list MigrateOperation) : list MigrateOperation :=
         match l with
         | [] => []
         | e :: r => dfs_leaves e ++ go r
         end) ops
  | _ => [elem]
  end.

Definition is_AlterColumn (elem : MigrateOperation) : bool :=
  match elem with
  | AlterColumn _ => true
  | _ => false
  end.

(** The operations [add_using_clause] returns, as the list the executor
    iterates over. *)
Definition returned_ops (r : rewritten) : list AlterColumnOp :=
  match r with
  | OneOp op => [op]
  | OpList ops => ops
  end.

Definition is_CreateEngine (ev : event) : bool :=
  match ev with CreateEngine _ => true | _ => false end.
Definition is_CreateAsyncEngine (ev : event) : bool :=
  match ev with CreateAsyncEngine _ => true | _ => false end.

(** [create_engine(...).connect()] of line 161: the engine the migration
    creates for itself at every pass, and its connection. *)
Definition is_Connect (ev : event) : bool :=
  match ev with Connect _ => true | _ => false end.

(** The events [__update_schema] can emit. *)
Definition schema_event (ev : event) : bool :=
  match ev with
  | CreateEngine _ | CreateAsyncEngine _ | SessionDelete => false
  | _ => true
  end.

(** Events that begin or end a transaction of the administrative
    connection. *)
Definition is_transaction_event (ev : event) : bool :=
  is_Begin ev || is_Commit ev || is_Rollback ev.

(** What the loop of the migration and the log line before it emit. *)
Definition quiet (ev : event) : Prop :=
  is_transaction_event ev = false /\ is_LogError ev = false
  /\ schema_event ev = true /\ is_Connect ev = false.

(** What holds of the pools and of the transactions all along a run in
    which one construction or accessor call ends before the next begins:
    the engine of a pool has been created exactly when its session exists,
    no transaction is pending, every transaction begun has been ended, and
    the migration has created one engine of its own for each transaction
    begun. *)
Definition settled {database : Type} (w : World database) : Prop :=
  count is_CreateEngine (trace w)
  = match SyncSession w with Some _ => 1 | None => 0 end
  /\ count is_CreateAsyncEngine (trace w)
     = match AsyncSession w with Some _ => 1 | None => 0 end
  /\ txn w = None
  /\ count is_Begin (trace w)
     = count is_Commit (trace w) + count is_Rollback (trace w)
  /\ count is_Connect (trace w) = count is_Begin (trace w).

(** ** The sync pool when constructions interleave (lines 67-79)

    [ensure_sync_session] takes a construction as a whole.  A thread runs
    it in two steps: the test of line 67, outside the lock, and, when the
    test found no session, the block of lines 68-79 under the lock, which
    creates the engine and assigns the two attributes without testing
    again.  The block is one step because the lock lets one thread at a
    time into it and because [SyncSession], the attribute the test reads,
    is the last it assigns.  Another thread can take steps between the
    two. *)
Inductive sync_pc : Set :=
| AtTest        (* about to run line 67 *)
| AtLock        (* the test found no session: about to run lines 68-79 *)
| PastSync.     (* at line 81 *)

Definition sync_step {database : Type} (dotenv : environ) (pc : sync_pc)
           (w : World database) : sync_pc * World database :=
  match pc with
  | AtTest =>
      match SyncSession w with
      | Some _ => (PastSync, w)
      | None => (AtLock, w)
      end
  | AtLock =>
      let (url, env) := get_database_url dotenv (os_environ w) false in
      (PastSync,
       emit (CreateEngine url) (set_sync (create_engine url) (set_environ env w)))
  | PastSync => (PastSync, w)
  end.

(** Two threads that construct a [GenericDAL]; the schedule names the
    thread that takes each step. *)
Inductive thread : Set := First | Second.

Fixpoint run_threads {database : Type} (dotenv : environ)
         (schedule : list thread) (pcs : sync_pc * sync_pc)
         (w : World database) : (sync_pc * sync_pc) * World database :=
  match schedule with
  | [] => (pcs, w)
  | First :: rest =>
      let (pc', w') := sync_step dotenv (fst pcs) w in
      run_threads dotenv rest (pc', snd pcs) w'
  | Second :: rest =>
      let (pc', w') := sync_step dotenv (snd pcs) w in
      run_threads dotenv rest (fst pcs, pc') w'
  end.

(** The threads that have not yet got past the pool. *)
Definition pending (pcs : sync_pc * sync_pc) : nat :=
  (match fst pcs with PastSync => 0 | _ => 1 end)
  + (match snd pcs with PastSync => 0 | _ => 1 end).

(** ** [async_get] (database.py, lines 237-272)

    The statement is a value built step by step; every method of
    SQLAlchemy's [Select] used here returns a new statement with one more
    clause. *)
Section Query.
Variable database : Type.
Variable attr : Type.     (* what [getattr(cls, key)] returns *)
Variable value : Type.    (* the values of the filters and of [_limit] *)
Variable expr : Type.     (* the expressions given as [_func], [_group], ... *)

(** The mapped class: its name and [getattr] on it, [None] when the class
    has no such attribute. *)
Record Mapped : Type := mkMapped {
  mapped_name : string;
  mapped_getattr : string -> option attr
}.

Inductive selected : Type :=
| Entity (cls : string)
| Selected (e : expr).

Record Select : Type := mkSelect {
  sel_columns : list selected;
  sel_where : list (attr * value);     (* [attribute == value], conjoined *)
  sel_group_by : list expr;
  sel_having : list expr;
  sel_order_by : list expr;
  sel_limit : option value
}.

Definition select (columns : list selected) : Select :=
  mkSelect columns [] [] [] [] None.
Definition where_ (conditions : list (attr * value)) (s : Select) : Select :=
  mkSelect (sel_columns s) (sel_where s ++ conditions) (sel_group_by s)
           (sel_having s) (sel_order_by s) (sel_limit s).
Definition add_columns (e : expr) (s : Select) : Select :=
  mkSelect (sel_columns s ++ [Selected e]) (sel_where s) (sel_group_by s)
           (sel_having s) (sel_order_by s) (sel_limit s).
Definition group_by (e : expr) (s : Select) : Select :=
  mkSelect (sel_columns s) (sel_where s) (sel_group_by s ++ [e])
           (sel_having s) (sel_order_by s) (sel_limit s).
Definition having (e : expr) (s : Select) : Select :=
  mkSelect (sel_columns s) (sel_where s) (sel_group_by s)
           (sel_having s ++ [e]) (sel_order_by s) (sel_limit s).
Definition order_by (e : expr) (s : Select) : Select :=
  mkSelect (sel_columns s) (sel_where s) (sel_group_by s)
           (sel_having s) (sel_order_by s ++ [e]) (sel_limit s).
Definition limit (n : value) (s : Select) : Select :=
  mkSelect (sel_columns s) (sel_where s) (sel_group_by s)
           (sel_having s) (sel_order_by s) (Some n).

(** [_func] is [None], a list of expressions or one expression. *)
Inductive func_arg : Type :=
| FuncList (l : list expr)
| FuncOne (e : expr).

(** A row of a result has at least one column. *)
Definition row : Type := (value * list value)%type.

(** An element of the list [async_get] returns: the first column of a row
    ([scalars()]) or the row. *)
Inductive item : Type :=
| Scalar (v : value)
| Row (r : row).

(** [session.execute(stmt)] on the database, [None] when it raises. *)
Variable execute : Select -> database -> option (list row).

(** [[getattr(cls, key) == value for key, value in filters.items()]] *)
Fixpoint conditions (cls : Mapped) (filters : list (string * value))
  : exn + list (attr * value) :=
  match filters with
  | [] => inr []
  | (key, v) :: rest =>
      match mapped_getattr cls key with
      | None =>
          inl (AttributeError ("type object '" ++ mapped_name cls
                                 ++ "' has no attribute '" ++ key ++ "'"))
      | Some a =>
          match conditions cls rest with
          | inl e => inl e
          | inr cs => inr ((a, v) :: cs)
          end
      end
  end.

(** Lines 240-246 *)
Definition selected_columns (cls : Mapped) (_func : option func_arg)
  : list selected :=
  match _func with
  | Some (FuncList l) => map Selected l
  | Some (FuncOne e) => [Selected e]
  | None => [Entity (mapped_name cls)]
  end.

(** Lines 253-264: a clause for every argument that is not [None]. *)
Definition optional {A} (f : A -> Select -> Select) (arg : option A)
  (s : Select) : Select :=
  match arg with
  | Some a => f a s
  | None => s
  end.

Definition with_clauses (_group _having _order : option expr)
  (_limit : option value) (s : Select) : Select :=
  let s := optional (fun g s => group_by g (add_columns g s)) _group s in
  let s := optional having _having s in
  let s := optional order_by _order s in
  optional limit _limit s.

(** The state a call leaves is the list of the statements its session
    executed; the world is only read. *)
Definition async_get (cls : Mapped) (_func : option func_arg)
  (_group _having _order : option expr) (_limit : option value)
  (filters : list (string * value)) (w : World database)
  : outcome (list item) (list Select) :=
  match AsyncSession w with
  | None => Raise (TypeError "'NoneType' object is not callable") []
  | Some _ =>
      let stmt := select (selected_columns cls _func) in
      let filtered :=
        match filters with
        | [] => inr stmt                      (* [if filters:] *)
        | _ :: _ =>
            match conditions cls filters with
            | inl e => inl e
            | inr cs => inr (where_ cs stmt)
            end
        end in
      match filtered with
      | inl e => Raise e []
      | inr stmt =>
          let stmt := with_clauses _group _having _order _limit stmt in
          match execute stmt (live w) with
          | None => Raise DatabaseError [stmt]
          | Some rows =>
              Return (match _func with
                      | None => map (fun r => Scalar (fst r)) rows
                      | Some _ => map Row rows
                      end) [stmt]
          end
      end
  end.

End Query.

Arguments mkMapped {attr}.
Arguments mapped_name {attr}.
Arguments mapped_getattr {attr}.
Arguments Entity {expr}.
Arguments Selected {expr}.
Arguments sel_columns {attr value expr}.
Arguments sel_where {attr value expr}.
Arguments sel_group_by {attr value expr}.
Arguments sel_having {attr value expr}.
Arguments sel_order_by {attr value expr}.
Arguments sel_limit {attr value expr}.
Arguments FuncList {expr}.
Arguments FuncOne {expr}.
Arguments Scalar {value}.
Arguments Row {value}.
Arguments conditions {attr value}.
Arguments selected_columns {attr expr}.
Arguments with_clauses {attr value expr}.
Arguments where_ {attr value expr}.
Arguments select {attr value expr}.
Arguments async_get {database attr value expr}.

(** ** The context manager of [redis.py] (lines 18-38)

    A client is known by the number it gets when it is created.  The state
    is the [Redis] object together with what happened to the clients. *)
Module RedisPy.

Inductive target : Set :=
| HostPortDb (host : string) (port db : Z)   (* redis.Redis(host=, port=, db=) *)
| FromUrl (url : string).                    (* aioredis.Redis.from_url(url) *)

Inductive event : Set :=
| Opened (client : nat) (to : target)
| Closed (client : nat).

Record Redis : Set := mkRedis {
  host : string;
  db : Z;
  _redis : option nat
}.

Record Store : Set := mkStore {
  next_client : nat;
  log : list event
}.

Definition State : Set := (Redis * Store)%type.

(** [str] of an [int]. *)
Definition str_int (z : Z) : string :=
  if (z <? 0)%Z then "-" ++ pg.render_nat (Z.to_nat (- z))
  else pg.render_nat (Z.to_nat z).

(** [Redis.__init__] (lines 19-22) *)
Definition Redis_init (env : environ) (db_ : Z) : Redis :=
  {| host := getenv env "DB_HOST" "localhost"; db := db_; _redis := None |}.

Definition open_client (to : target) (st : State) : nat * State :=
  let (self, s) := st in
  let c := next_client s in
  (c, ({| host := host self; db := db self; _redis := Some c |},
       {| next_client := S c; log := log s ++ [Opened c to] |})).

(** [__enter__] (lines 32-34) *)
Definition enter (st : State) : nat * State :=
  open_client (HostPortDb (host (fst st)) 6379 (db (fst st))) st.

(** [__aenter__] (lines 24-26) *)
Definition aenter (st : State) : nat * State :=
  open_client (FromUrl ("redis://" ++ host (fst st) ++ ":6379/"
                          ++ str_int (db (fst st)))) st.

(** [__exit__] (lines 36-38): the client is closed when there is one; the
    method returns [None], so an exception of the body goes on. *)
Definition exit (st : State) : State :=
  match _redis (fst st) with
  | Some c => (fst st, {| next_client := next_client (snd st);
                          log := log (snd st) ++ [Closed c] |})
  | None => st
  end.

(** [__aexit__] (lines 28-30) *)
Definition aexit (st : State) : State :=
  match _redis (fst st) with
  | Some c => (fst st, {| next_client := next_client (snd st);
                          log := log (snd st) ++ [Closed c] |})
  | None => st
  end.

(** The statement [with self as r: body] for a manager whose exit method
    returns [None]. *)
Definition with_stmt {A : Type} (enter_ : State -> nat * State)
  (exit_ : State -> State) (body : nat -> State -> outcome A State)
  (st : State) : outcome A State :=
  let (r, st1) := enter_ st in
  match body r st1 with
  | Return a st2 => Return a (exit_ st2)
  | Raise e st2 => Raise e (exit_ st2)
  end.

Definition closed (c : nat) (ev : event) : bool :=
  match ev with
  | Closed c' => Nat.eqb c c'
  | Opened _ _ => false
  end.

Definition opened (c : nat) (ev : event) : bool :=
  match ev with
  | Opened c' _ => Nat.eqb c c'
  | Closed _ => false
  end.

End RedisPy.

(** ** The Swagger UI parameters of [swagger.py] (lines 97-99, 193-194)

    A Python dictionary is the list of its items in insertion order, with
    no key twice. *)
Section SwaggerParameters.
Variable jsonable : Type.
Variable dumps_key : string -> string.     (* json.dumps(key) *)
Variable dumps : jsonable -> string.       (* json.dumps(jsonable_encoder(value)) *)

Fixpoint dict_get (d : list (string * jsonable)) (key : string)
  : option jsonable :=
  match d with
  | [] => None
  | (k, v) :: rest => if String.eqb k key then Some v else dict_get rest key
  end.

(** [d[key] = v]: the value is replaced where the key is, a new key goes to
    the end. *)
Fixpoint dict_set (d : list (string * jsonable)) (key : string) (v : jsonable)
  : list (string * jsonable) :=
  match d with
  | [] => [(key, v)]
  | (k, v') :: rest =>
      if String.eqb k key then (k, v) :: rest
      else (k, v') :: dict_set rest key v
  end.

(** [d.update(other)] *)
Fixpoint dict_update (d other : list (string * jsonable))
  : list (string * jsonable) :=
  match other with
  | [] => d
  | (k, v) :: rest => dict_update (dict_set d k v) rest
  end.

(** Lines 97-99; an argument that is [None] or empty is not truthy. *)
Definition current_swagger_ui_parameters
  (swagger_ui_default_parameters : list (string * jsonable))
  (swagger_ui_parameters : option (list (string * jsonable)))
  : list (string * jsonable) :=
  let current := swagger_ui_default_parameters in
  match swagger_ui_parameters with
  | Some ((_ :: _) as given) => dict_update current given
  | _ => current
  end.

Definition newline : string := String (ascii_of_nat 10) "".

(** Lines 193-194: what the loop appends to [html]. *)
Fixpoint parameter_lines (current : list (string * jsonable)) : string :=
  match current with
  | [] => ""
  | (key, v) :: rest =>
      dumps_key key ++ ": " ++ dumps v ++ "," ++ newline ++ parameter_lines rest
  end.

Definition keys (d : list (string * jsonable)) : list string := map fst d.

Definition has_key (d : list (string * jsonable)) (key : string) : bool :=
  match dict_get d key with
  | Some _ => true
  | None => false
  end.

End SwaggerParameters.

Arguments dict_get {jsonable}.
Arguments dict_set {jsonable}.
Arguments dict_update {jsonable}.
Arguments current_swagger_ui_parameters {jsonable}.
Arguments parameter_lines {jsonable}.
Arguments keys {jsonable}.
Arguments has_key {jsonable}.

(** Values for examples. *)
Module Sample.

(** A mapped class with two columns. *)
Definition device : Mapped string :=
  mkMapped "Device"
           (fun key => if String.eqb key "id" then Some "device.id"
                       else if String.eqb key "port" then Some "device.port"
                       else None).

Definition no_rows (s : Select string string string) (db : Demo.database)
  : option (list (row string)) := Some [].

(** The parameters [api.py] gives to FastAPI and a table of defaults. *)
Definition defaults : list (string * string) :=
  [("dom_id", "#swagger-ui"); ("deepLinking", "true"); ("layout", "BaseLayout")].

Definition given : list (string * string) :=
  [("deepLinking", "false"); ("docExpansion", "none")].

Definition cache : RedisPy.State :=
  (RedisPy.Redis_init Demo.environment 1, RedisPy.mkStore 0 []).

Definition ping (r : nat) (st : RedisPy.State) : outcome unit RedisPy.State :=
  Return tt st.

Definition broken (r : nat) (st : RedisPy.State) : outcome unit RedisPy.State :=
  Raise DatabaseError st.

End Sample.

(** * Properties *)

(** ** The casting expressions *)

Lemma append_assoc (a b c : string) : ((a ++ b) ++ c = a ++ (b ++ c))%string.
Proof.
  induction a as [|x a IH]; simpl; [reflexivity | now rewrite IH].
Qed.

Lemma append_nil_r (a : string) : (a ++ "")%string = a.
Proof.
  induction a as [|x a IH]; simpl; [reflexivity | now rewrite IH].
Qed.


(** The text [add_using_clause] builds is the SQL of [pg.text_to_integer]. *)
Lemma text_to_integer_using_render (column : string) :
  pg.render (pg.text_to_integer column) = text_to_integer_using column.
Proof.
  unfold text_to_integer_using. cbn.
  repeat rewrite append_assoc. cbn. reflexivity.
Qed.


(** Replacing every character outside [0-9] by nothing keeps the digits. *)
Lemma replace_all_non_digits (s : string) :
  pg.replace_all (pg.NotInRange "0" "9") "" s = strip_non_digits s.
Proof.
  induction s as [|c s IH]; [reflexivity |].
  cbn [pg.replace_all strip_non_digits pg.matches].
  fold (pg.is_digit c). destruct (pg.is_digit c); cbn [negb].
  - now rewrite IH.
  - cbn [append]. exact IH.
Qed.

Lemma eval_text_to_integer (column s : string) :
  pg.eval (stored (pg.TextVal s)) (pg.text_to_integer column)
  = option_map pg.IntVal (pg.cast_integer (digits_or_zero s)).
Proof.
  unfold pg.text_to_integer, digits_or_zero.
  cbn [pg.eval stored]. unfold pg.regexp_replace. cbn [pg.has_flag Ascii.eqb].
  cbn. rewrite replace_all_non_digits.
  destruct (strip_non_digits s) as [|c d]; reflexivity.
Qed.



















(** *** The digits denote the integer *)




















(** ** The rewriting of column type changes *)

(** C3. For every [AlterColumnOp] whose existing type is [Text] and whose
    new type is [Integer], [add_using_clause] returns one [AlterColumnOp]
    (not a list) that carries a [USING] expression; on a stored text the
    expression strips every character that is not a digit, reads an empty
    result as zero and casts to integer, so that "12a", "" and "007" become
    12, 0 and 7. *)
Theorem add_using_clause_text_to_integer (op : AlterColumnOp) :
  sa.isinstance (existing_type op) sa.Text = true ->
  sa.isinstance (modify_type op) sa.Integer = true ->
  let cast := pg.text_to_integer (column_name op) in
  add_using_clause op
  = OneOp {| table_name := table_name op;
             column_name := column_name op;
             schema := schema op;
             existing_type := existing_type op;
             existing_server_default := existing_server_default op;
             existing_nullable := existing_nullable op;
             existing_comment := existing_comment op;
             modify_nullable := None;
             modify_comment := PyFalse;
             modify_server_default := PyFalse;
             modify_name := None;
             modify_type := modify_type op;
             postgresql_using := Some (pg.render cast) |}
  /\ (forall s : string,
        pg.eval (stored (pg.TextVal s)) cast
        = option_map pg.IntVal (pg.cast_integer (digits_or_zero s)))
  /\ pg.eval (stored (pg.TextVal "12a")) cast = Some (pg.IntVal 12)
  /\ pg.eval (stored (pg.TextVal "")) cast = Some (pg.IntVal 0)
  /\ pg.eval (stored (pg.TextVal "007")) cast = Some (pg.IntVal 7).
Proof.
  intros Hold Hnew cast. split; [| split; [| split; [| split]]].
  - unfold add_using_clause. rewrite Hold, Hnew. cbn [andb].
    subst cast. now rewrite text_to_integer_using_render.
  - intros s. apply eval_text_to_integer.
  - subst cast. now rewrite eval_text_to_integer.
  - subst cast. now rewrite eval_text_to_integer.
  - subst cast. now rewrite eval_text_to_integer.
Qed.

Lemma add_using_clause_text_to_integer_witness :
  sa.isinstance (existing_type Demo.port_to_integer) sa.Text = true
  /\ sa.isinstance (modify_type Demo.port_to_integer) sa.Integer = true
  /\ exists op,
       add_using_clause Demo.port_to_integer = OneOp op
       /\ postgresql_using op
          = Some "COALESCE(NULLIF(REGEXP_REPLACE(port, '[^0-9]', '', 'g'), ''), '0')::integer".
Proof.
  split; [reflexivity | split; [reflexivity |]].
  eexists. split.
  - exact (proj1 (add_using_clause_text_to_integer
                    Demo.port_to_integer eq_refl eq_refl)).
  - reflexivity.
Defined.




(** C7. For every [AlterColumnOp] whose types are neither ([Text],
    [Integer]) nor ([Integer], [UUID]), [add_using_clause] returns the
    operation it was given, unchanged and with no [USING] expression added;
    the function is total and touches nothing but its argument, and the
    executor invokes that very operation. *)
Theorem add_using_clause_other_types (op : AlterColumnOp) :
  sa.isinstance (existing_type op) sa.Text
    && sa.isinstance (modify_type op) sa.Integer = false ->
  sa.isinstance (existing_type op) sa.Integer
    && sa.isinstance (modify_type op) sa.UUID = false ->
  add_using_clause op = OneOp op
  /\ (forall op', add_using_clause op = OneOp op' ->
                  postgresql_using op' = postgresql_using op)
  /\ (forall (database : Type)
             (apply_ddl : MigrateOperation -> database -> option database)
             (w : World database),
        invoke_leaf apply_ddl (AlterColumn op) w
        = invoke apply_ddl (AlterColumn op) w).
Proof.
  intros H1 H2.
  assert (Hid : add_using_clause op = OneOp op).
  { unfold add_using_clause.
    rewrite (andb_comm (sa.isinstance (modify_type op) sa.Integer)), H1.
    rewrite (andb_comm (sa.isinstance (modify_type op) sa.UUID)), H2.
    reflexivity. }
  split; [exact Hid | split].
  - intros op' Hop'. rewrite Hid in Hop'. now injection Hop' as <-.
  - intros database apply_ddl w. cbn [invoke_leaf]. now rewrite Hid.
Qed.

Lemma add_using_clause_other_types_witness :
  add_using_clause Demo.label_to_string = OneOp Demo.label_to_string.
Proof.
  exact (proj1 (add_using_clause_other_types
                  Demo.label_to_string eq_refl eq_refl)).
Defined.

(** ** The work queue *)

Section WorkQueueFacts.
Context {St : Type}.
Variable batch : MigrateOperation -> St -> outcome unit St.
Variable leaf : MigrateOperation -> St -> outcome unit St.

(** One turn of the [while] loop. *)
Lemma work_queue_cons (use_batch : bool) (elem : MigrateOperation)
      (rest : list MigrateOperation) (st : St) :
  work_queue batch leaf use_batch (elem :: rest) st
  = if use_batch && is_ModifyTableOps elem then
      match batch elem st with
      | Return _ st' => work_queue batch leaf use_batch rest st'
      | Raise e st' => Raise e st'
      end
    else
      match ops_attr elem with
      | Some ops => work_queue batch leaf use_batch (rest ++ ops) st
      | None =>
          match leaf elem st with
          | Return _ st' => work_queue batch leaf use_batch rest st'
          | Raise e st' => Raise e st'
          end
      end.
Proof.
  rewrite work_queue_equation_2.
  destruct (use_batch && is_ModifyTableOps elem); cbn.
  - destruct (batch elem st); reflexivity.
  - destruct elem; cbn; try (destruct (leaf _ st); reflexivity); reflexivity.
Qed.

Lemma run_plan_app (a b : list MigrateOperation) : forall st : St,
  run_plan leaf (a ++ b) st
  = match run_plan leaf a st with
    | Return _ st' => run_plan leaf b st'
    | Raise e st' => Raise e st'
    end.
Proof.
  induction a as [|op a IH]; intros st; cbn [app run_plan]; [reflexivity |].
  destruct (leaf op st) as [[] st' | e st']; [apply IH | reflexivity].
Qed.

(** Without batches, the loop that starts on [level ++ next] applies the
    operations of [level] and goes on with [next] followed by the
    children of [level]. *)
Lemma work_queue_level (level : list MigrateOperation) :
  forall (next : list MigrateOperation) (st : St),
    work_queue batch leaf false (level ++ next) st
    = match run_plan leaf (leaves level) st with
      | Return _ st' => work_queue batch leaf false (next ++ children level) st'
      | Raise e st' => Raise e st'
      end.
Proof.
  induction level as [|elem level IH]; intros next st.
  - cbn [app leaves children run_plan]. now rewrite app_nil_r.
  - cbn [app]. rewrite work_queue_cons. cbn [andb leaves children].
    destruct (ops_attr elem) as [ops |].
    + rewrite <- app_assoc, IH. now rewrite <- app_assoc.
    + cbn [run_plan].
      destruct (leaf elem st) as [[] st' | e st']; [apply IH | reflexivity].
Qed.

End WorkQueueFacts.

Lemma forest_size_app (a b : list MigrateOperation) :
  forest_size (a ++ b) = forest_size a + forest_size b.
Proof.
  induction a as [|x a IH]; cbn [app forest_size]; [reflexivity | rewrite IH; lia].
Qed.

Lemma op_size_container (elem : MigrateOperation) :
  match ops_attr elem with
  | Some ops => op_size elem = S (forest_size ops)
  | None => op_size elem = 1
  end.
Proof. destruct elem; reflexivity. Qed.

(** Every tree of a level is one node more than its children. *)
Lemma forest_size_children (level : list MigrateOperation) :
  forest_size (children level) + length level = forest_size level.
Proof.
  induction level as [|elem level IH]; cbn [children forest_size length];
    [reflexivity |].
  pose proof (op_size_container elem) as H.
  destruct (ops_attr elem); [rewrite forest_size_app |]; lia.
Qed.

Lemma bfs_plan_cons (elem : MigrateOperation) (rest : list MigrateOperation) :
  bfs_plan (elem :: rest)
  = leaves (elem :: rest) ++ bfs_plan (children (elem :: rest)).
Proof. now rewrite bfs_plan_equation_2. Qed.

(** The loop without batches applies the operations in breadth-first
    order, whatever applying them does. *)
Lemma work_queue_bfs {St : Type}
      (batch leaf : MigrateOperation -> St -> outcome unit St) :
  forall (stack : list MigrateOperation) (st : St),
    work_queue batch leaf false stack st = run_plan leaf (bfs_plan stack) st.
Proof.
  intros stack.
  induction stack as [stack IH] using (induction_ltof1 _ forest_size).
  unfold ltof in IH. intros st.
  destruct stack as [|elem rest].
  - rewrite work_queue_equation_1, bfs_plan_equation_1. reflexivity.
  - rewrite bfs_plan_cons, run_plan_app.
    rewrite <- (app_nil_r (elem :: rest)) at 1.
    rewrite work_queue_level. cbn [app].
    destruct (run_plan leaf (leaves (elem :: rest)) st) as [[] st' | e st'];
      [| reflexivity].
    apply IH.
    pose proof (forest_size_children (elem :: rest)) as H.
    cbn [length] in H. lia.
Qed.

(** The plan a recording [leaf] collects. *)
Lemma run_plan_collect (plan : list MigrateOperation) :
  forall acc : list MigrateOperation,
    run_plan (fun op acc => Return tt (acc ++ [op])) plan acc
    = Return tt (acc ++ plan).
Proof.
  induction plan as [|op plan IH]; intros acc; cbn [run_plan].
  - now rewrite app_nil_r.
  - rewrite IH, <- app_assoc. reflexivity.
Qed.

(** C6. For every operation tree, the work-queue loop of the executor (pop
    the head, append the children of a container at the end) meets the
    operations in the order of a pure breadth-first traversal: collecting
    them gives [bfs_plan], and with any way of applying an operation the
    loop does what applying the operations of [bfs_plan] one after the other
    does, failures included. *)
Theorem work_queue_breadth_first (tree : MigrateOperation) :
  work_queue (fun _ plan => Return tt plan)
             (fun op plan => Return tt (plan ++ [op])) false [tree] []
  = Return tt (bfs_plan [tree])
  /\ forall (St : Type)
            (batch leaf : MigrateOperation -> St -> outcome unit St) (st : St),
       work_queue batch leaf false [tree] st
       = run_plan leaf (bfs_plan [tree]) st.
Proof.
  split.
  - rewrite work_queue_bfs. apply run_plan_collect.
  - intros St batch leaf st. apply work_queue_bfs.
Qed.

(** A relation that every invocation respects is respected by the whole
    loop, batches or not. *)
Lemma run_plan_preserves {St : Type} (R : St -> St -> Prop)
      (leaf : MigrateOperation -> St -> outcome unit St) :
  (forall st, R st st) ->
  (forall a b c, R a b -> R b c -> R a c) ->
  (forall op st, R st (state_of (leaf op st))) ->
  forall plan st, R st (state_of (run_plan leaf plan st)).
Proof.
  intros Hrefl Htrans Hleaf.
  induction plan as [|op plan IH]; intros st; cbn [run_plan state_of].
  - apply Hrefl.
  - pose proof (Hleaf op st) as Hop.
    destruct (leaf op st) as [[] st' | e st']; cbn [state_of] in *.
    + eapply Htrans; [exact Hop | apply IH].
    + exact Hop.
Qed.

Lemma work_queue_preserves {St : Type} (R : St -> St -> Prop)
      (batch leaf : MigrateOperation -> St -> outcome unit St)
      (use_batch : bool) :
  (forall st, R st st) ->
  (forall a b c, R a b -> R b c -> R a c) ->
  (forall elem st, R st (state_of (batch elem st))) ->
  (forall elem st, R st (state_of (leaf elem st))) ->
  forall stack st, R st (state_of (work_queue batch leaf use_batch stack st)).
Proof.
  intros Hrefl Htrans Hbatch Hleaf stack.
  induction stack as [stack IH] using (induction_ltof1 _ forest_size).
  unfold ltof in IH. intros st.
  destruct stack as [|elem rest].
  - rewrite work_queue_equation_1. apply Hrefl.
  - rewrite work_queue_cons.
    pose proof (op_size_container elem) as Hsize.
    destruct (use_batch && is_ModifyTableOps elem).
    + pose proof (Hbatch elem st) as Hstep.
      destruct (batch elem st) as [[] st' | e st']; cbn [state_of] in *;
        [| exact Hstep].
      eapply Htrans; [exact Hstep |]. apply IH.
      cbn [forest_size]. destruct (ops_attr elem); lia.
    + destruct (ops_attr elem) as [ops |].
      * apply IH. rewrite forest_size_app. cbn [forest_size]. lia.
      * pose proof (Hleaf elem st) as Hstep.
        destruct (leaf elem st) as [[] st' | e st']; cbn [state_of] in *;
          [| exact Hstep].
        eapply Htrans; [exact Hstep |]. apply IH.
        cbn [forest_size]. lia.
Qed.

(** ** Events *)

Lemma count_app (p : event -> bool) (a b : list event) :
  count p (a ++ b) = count p a + count p b.
Proof. unfold count. now rewrite filter_app, length_app. Qed.

Lemma count_Invoke (p : event -> bool) (ops : list MigrateOperation) :
  (forall op, p (Invoke op) = false) -> count p (map Invoke ops) = 0.
Proof.
  intros Hp. unfold count.
  induction ops as [|op ops IH]; cbn [map filter]; [reflexivity |].
  now rewrite Hp.
Qed.

Lemma invoked_app (a b : list event) :
  invoked (a ++ b) = invoked a ++ invoked b.
Proof.
  induction a as [|ev a IH]; cbn [app invoked]; [reflexivity |].
  destruct ev; cbn [app]; now rewrite ?IH.
Qed.

Lemma invoked_Invoke (ops : list MigrateOperation) :
  invoked (map Invoke ops) = ops.
Proof.
  induction ops as [|op ops IH]; cbn [map invoked]; [reflexivity | now rewrite IH].
Qed.

Lemma count_none (p : event -> bool) (evs : list event) :
  Forall (fun ev => p ev = false) evs -> count p evs = 0.
Proof.
  unfold count. induction 1 as [|ev evs Hev _ IH]; cbn [filter];
    [reflexivity | now rewrite Hev].
Qed.

(** ** The connection URL *)

Lemma get_database_url_postgresql (dotenv env : environ) (async_driver : bool) :
  get_backend_name (fst (get_database_url dotenv env async_driver))
  = "postgresql".
Proof. destruct async_driver; reflexivity. Qed.

Lemma postgresql_is_not_sqlite (e : Engine) :
  Engine_name e = "postgresql" -> String.eqb (Engine_name e) "sqlite" = false.
Proof. intros ->. reflexivity. Qed.

(** ** The migration step *)

Section ProgramFacts.
Variable database : Type.
Variable dotenv : environ.
Variable prepare : database -> option database.
Variable produce_migrations : database -> list MigrateOperation.
Variable apply_ddl : MigrateOperation -> database -> option database.
Implicit Types (w : World database) (Q : event -> Prop).

Lemma after_refl Q w : after Q w w.
Proof.
  unfold after. repeat (split; [reflexivity |]).
  exists []. split; [now rewrite app_nil_r | constructor].
Qed.

Lemma after_trans Q w1 w2 w3 : after Q w1 w2 -> after Q w2 w3 -> after Q w1 w3.
Proof.
  intros (Ha & Hb & Hc & Hd & He & evs1 & Ht1 & Hq1)
         (Ha' & Hb' & Hc' & Hd' & He' & evs2 & Ht2 & Hq2).
  unfold after. repeat (split; [congruence |]).
  exists (evs1 ++ evs2). split.
  - rewrite Ht2, Ht1. now rewrite app_assoc.
  - apply Forall_app. now split.
Qed.

Lemma after_weaken Q Q' w w' :
  (forall ev, Q ev -> Q' ev) -> after Q w w' -> after Q' w w'.
Proof.
  intros HQ (Ha & Hb & Hc & Hd & He & evs & Ht & Hq).
  unfold after. repeat (split; [assumption |]).
  exists evs. split; [assumption |].
  eapply Forall_impl; [exact HQ | exact Hq].
Qed.

Lemma after_emit Q ev w : Q ev -> after Q w (emit ev w).
Proof.
  intros Hev. unfold after. repeat (split; [reflexivity |]).
  exists [ev]. split; [reflexivity | now constructor].
Qed.

Lemma after_set_txn Q t w : after Q w (set_txn t w).
Proof.
  unfold after. repeat (split; [reflexivity |]).
  exists []. split; [cbn; now rewrite app_nil_r | constructor].
Qed.

Lemma after_set_live Q s w : after Q w (set_live s w).
Proof.
  unfold after. repeat (split; [reflexivity |]).
  exists []. split; [cbn; now rewrite app_nil_r | constructor].
Qed.

Lemma after_set_environ Q env w : after Q w (set_environ env w).
Proof.
  unfold after. repeat (split; [reflexivity |]).
  exists []. split; [cbn; now rewrite app_nil_r | constructor].
Qed.

(** Peels the last update off the world on the right. *)
Ltac after_step HQ :=
  match goal with
  | |- after _ _ (emit _ _) =>
      eapply after_trans; [| apply after_emit; apply HQ; reflexivity]
  | |- after _ _ (set_txn _ _) => eapply after_trans; [| apply after_set_txn]
  | |- after _ _ (set_live _ _) => eapply after_trans; [| apply after_set_live]
  | |- after _ _ (set_environ _ _) =>
      eapply after_trans; [| apply after_set_environ]
  end.

Lemma run_ddl_after Q op w : after Q w (state_of (run_ddl apply_ddl op w)).
Proof.
  unfold run_ddl.
  destruct (txn w) as [s |].
  - destruct (apply_ddl op s); cbn [state_of];
      [apply after_set_txn | apply after_refl].
  - destruct (apply_ddl op (live w)); cbn [state_of];
      [apply after_set_live | apply after_refl].
Qed.

Lemma invoke_after Q op w :
  Q (Invoke op) -> after Q w (state_of (invoke apply_ddl op w)).
Proof.
  intros Hq. unfold invoke, bind, tell.
  eapply after_trans; [apply after_emit, Hq |].
  pose proof (run_ddl_after Q op (emit (Invoke op) w)) as H.
  destruct (run_ddl apply_ddl op (emit (Invoke op) w)); exact H.
Qed.

Lemma batch_invoke_after Q op w :
  Q (BatchInvoke op) -> after Q w (state_of (batch_invoke apply_ddl op w)).
Proof.
  intros Hq. unfold batch_invoke, bind, tell.
  eapply after_trans; [apply after_emit, Hq |].
  pose proof (run_ddl_after Q op (emit (BatchInvoke op) w)) as H.
  destruct (run_ddl apply_ddl op (emit (BatchInvoke op) w)); exact H.
Qed.

Lemma invoke_leaf_after Q elem w :
  (forall op, Q (Invoke op)) ->
  after Q w (state_of (invoke_leaf apply_ddl elem w)).
Proof.
  intros Hq.
  assert (Hplan : forall plan w0,
             after Q w0 (state_of (run_plan (invoke apply_ddl) plan w0))).
  { apply run_plan_preserves;
      [apply after_refl | apply after_trans
       | intros op st; apply invoke_after, Hq]. }
  destruct elem; cbn [invoke_leaf]; try (apply invoke_after, Hq).
  destruct (add_using_clause op); [apply invoke_after, Hq | apply Hplan].
Qed.

Lemma invoke_batch_after Q elem w :
  (forall ev, Q ev) -> after Q w (state_of (invoke_batch apply_ddl elem w)).
Proof.
  intros Hq.
  destruct elem; cbn [invoke_batch ret state_of]; try apply after_refl.
  unfold bind, tell.
  eapply after_trans; [apply after_emit, Hq |].
  apply (run_plan_preserves (after Q));
    [apply after_refl | apply after_trans
     | intros op st; apply batch_invoke_after, Hq].
Qed.

Lemma trans_commit_after Q w :
  Q Commit -> after Q w (state_of (trans_commit w)).
Proof.
  intros Hq. unfold trans_commit. cbn [state_of].
  destruct (txn w) as [s |].
  - eapply after_trans; [| apply after_emit, Hq].
    eapply after_trans; [apply after_set_live | apply after_set_txn].
  - apply after_emit, Hq.
Qed.

(** The body of the [try] leaves the class alone, and emits no batch
    event when the engine is a PostgreSQL engine. *)
Lemma migrate_body_after Q w :
  (forall ev, is_batch ev = false -> Q ev) ->
  postgres_engine w \/ (forall ev, Q ev) ->
  after Q w (state_of (migrate_body produce_migrations apply_ddl w)).
Proof.
  intros HQ Hcase. unfold migrate_body.
  assert (Hcommit : forall w0 w1,
             after Q w0 w1 -> after Q w0 (state_of (trans_commit w1))).
  { intros w0 w1 H. eapply after_trans; [exact H |].
    apply trans_commit_after, HQ. reflexivity. }
  destruct (is_empty (produce_migrations (live w))); cbn [negb].
  - unfold bind, ret. apply Hcommit, after_refl.
  - unfold bind at 1.
    assert (Hloop : after Q w
              (state_of
                 ((tell (LogInfo "Updating schema...") >>
                   bind use_batch_of
                     (fun use_batch =>
                        work_queue (invoke_batch apply_ddl)
                          (invoke_leaf apply_ddl) use_batch
                          [UpgradeOps (produce_migrations (live w))])) w))).
    { unfold bind, tell, use_batch_of.
      set (w1 := emit (LogInfo "Updating schema...") w).
      assert (H1 : after Q w w1) by (apply after_emit, HQ; reflexivity).
      change (SyncEngine w1) with (SyncEngine w).
      destruct (SyncEngine w) as [e |] eqn:He; [| exact H1].
      eapply after_trans; [exact H1 |].
      destruct Hcase as [Hpg | Hall].
      - rewrite (postgresql_is_not_sqlite e (Hpg e He)).
        rewrite work_queue_bfs.
        apply (run_plan_preserves (after Q));
          [apply after_refl | apply after_trans |].
        intros op st. apply invoke_leaf_after.
        intros op'. apply HQ. reflexivity.
      - apply (work_queue_preserves (after Q));
          [apply after_refl | apply after_trans | |].
        + intros elem st. apply invoke_batch_after, Hall.
        + intros elem st. apply invoke_leaf_after. intros op'. apply Hall. }
    destruct ((tell (LogInfo "Updating schema...") >>
               bind use_batch_of
                 (fun use_batch =>
                    work_queue (invoke_batch apply_ddl)
                      (invoke_leaf apply_ddl) use_batch
                      [UpgradeOps (produce_migrations (live w))])) w)
      as [[] w2 | e w2]; cbn [state_of] in Hloop.
    + apply Hcommit, Hloop.
    + exact Hloop.
Qed.

(** [except Exception] swallows whatever the body raises. *)
Lemma migrate_returns Q w :
  (forall ev, is_batch ev = false -> Q ev) ->
  postgres_engine w \/ (forall ev, Q ev) ->
  exists w', migrate dotenv produce_migrations apply_ddl w = Return tt w'
             /\ after Q w w'.
Proof.
  intros HQ Hcase. unfold migrate.
  destruct (get_database_url dotenv (os_environ w) false) as [url env].
  set (w1 := conn_begin (emit (Connect url) (set_environ env w))).
  assert (H1 : after Q w w1).
  { unfold w1, conn_begin. repeat after_step HQ. apply after_refl. }
  assert (Hcase1 : postgres_engine w1 \/ (forall ev, Q ev)).
  { destruct Hcase as [Hpg | Hall]; [left | right; exact Hall].
    exact Hpg. }
  pose proof (migrate_body_after Q w1 HQ Hcase1) as H2.
  destruct (migrate_body produce_migrations apply_ddl w1) as [[] w2 | e w2];
    cbn [state_of] in H2; eexists; (split; [reflexivity |]).
  - repeat after_step HQ. eapply after_trans; [exact H1 | exact H2].
  - unfold trans_rollback. repeat after_step HQ.
    eapply after_trans; [exact H1 | exact H2].
Qed.

(** [__update_schema] raises only before the migration starts; once it
    returns, its last event is the final log line. *)
Lemma update_schema_cases Q w :
  (forall ev, is_batch ev = false -> Q ev) ->
  postgres_engine w \/ (forall ev, Q ev) ->
  match update_schema dotenv prepare produce_migrations apply_ddl w with
  | Return _ w' =>
      after Q w w'
      /\ SyncSession w <> None
      /\ (exists s, prepare (live w) = Some s)
      /\ exists evs, trace w' = trace w ++ evs ++ [LogInfo "Schema is ready"]
  | Raise e w' =>
      w' = w
      /\ (SyncSession w = None \/ (prepare (live w) = None /\ e = DatabaseError))
  end.
Proof.
  intros HQ Hcase. unfold update_schema.
  destruct (SyncSession w) as [session |] eqn:Hs; [| now split; [| left]].
  destruct (prepare (live w)) as [s |] eqn:Hp; [| now split; [| right]].
  unfold bind, tell.
  match goal with
  | |- context [migrate _ _ _ ?w0] =>
      set (w1 := w0);
      assert (H1 : after Q w w1)
        by (unfold w1; repeat after_step HQ; apply after_refl);
      assert (Hcase1 : postgres_engine w1 \/ (forall ev, Q ev))
        by (destruct Hcase as [Hpg | Hall];
            [left; exact Hpg | right; exact Hall]);
      destruct (migrate_returns Q w1 HQ Hcase1) as (w2 & Hm & H2)
  end.
  rewrite Hm.
  assert (H12 : after Q w w2) by (eapply after_trans; eassumption).
  split; [| split; [discriminate | split; [now exists s |]]].
  - after_step HQ. exact H12.
  - destruct H12 as (_ & _ & _ & _ & _ & evs & Ht & _).
    exists evs. cbn [trace emit]. rewrite Ht. now rewrite app_assoc.
Qed.

Lemma lookup_update_schema :
  class_getattr GenericDAL_dict (mangle "GenericDAL" "__update_schema")
  = Some UpdateSchema.
Proof. reflexivity. Qed.

Lemma lookup_seed_database :
  class_getattr GenericDAL_dict (mangle "GenericDAL" "__seed_database")
  = Some SeedDatabase.
Proof. reflexivity. Qed.

(** No name of the class body is [_GenericDAL__init_cron]. *)
Lemma lookup_init_cron :
  mangle "GenericDAL" "__init_cron" = "_GenericDAL__init_cron"
  /\ class_getattr GenericDAL_dict (mangle "GenericDAL" "__init_cron") = None.
Proof. split; reflexivity. Qed.

(** The two sessions are there after the first lines of [__init__]. *)
Lemma ensure_sessions_spec Q w :
  (forall ev, is_batch ev = false -> Q ev) ->
  let w2 := ensure_async_session dotenv (ensure_sync_session dotenv w) in
  initialized w2 = initialized w
  /\ live w2 = live w
  /\ SyncSession w2 <> None
  /\ (postgres_engine w -> postgres_engine w2)
  /\ exists evs, trace w2 = trace w ++ evs /\ Forall Q evs.
Proof.
  intros HQ. unfold ensure_async_session, ensure_sync_session.
  destruct (SyncSession w) as [session |] eqn:Hs.
  - destruct (AsyncSession w) as [asession |] eqn:Ha.
    + cbn zeta. rewrite Hs. repeat (split; [easy |]).
      exists []. split; [now rewrite app_nil_r | constructor].
    + destruct (get_database_url dotenv (os_environ w) true) as [url env].
      cbn. rewrite Hs. repeat (split; [easy |]).
      exists [CreateAsyncEngine url].
      split; [reflexivity | constructor; [now apply HQ | constructor]].
  - destruct (get_database_url dotenv (os_environ w) false) as [url env] eqn:Hu.
    assert (Hpg : Engine_name (create_engine url) = "postgresql").
    { unfold Engine_name. cbn [engine_url].
      replace url with (fst (get_database_url dotenv (os_environ w) false))
        by now rewrite Hu.
      apply get_database_url_postgresql. }
    cbn [AsyncSession os_environ emit set_sync set_environ].
    destruct (AsyncSession w) as [asession |] eqn:Ha.
    + cbn. repeat (split; [easy |]). split.
      * intros _ e [= <-]. exact Hpg.
      * exists [CreateEngine url].
        split; [reflexivity | constructor; [now apply HQ | constructor]].
    + destruct (get_database_url dotenv env true) as [url' env'].
      cbn. repeat (split; [easy |]). split.
      * intros _ e [= <-]. exact Hpg.
      * exists [CreateEngine url; CreateAsyncEngine url'].
        split; [now rewrite <- app_assoc |].
        repeat (constructor; [now apply HQ |]). constructor.
Qed.

(** A construction that finds the flag unset never returns: it raises,
    and the flag is still unset. *)
Lemma GenericDAL_init_cases Q w :
  (forall ev, is_batch ev = false -> Q ev) ->
  postgres_engine w \/ (forall ev, Q ev) ->
  initialized w = false ->
  exists e w',
    GenericDAL_init dotenv prepare produce_migrations apply_ddl w = Raise e w'
    /\ initialized w' = false
    /\ (postgres_engine w -> postgres_engine w')
    /\ (exists evs, trace w' = trace w ++ evs /\ Forall Q evs)
    /\ ((prepare (live w) = None /\ e = DatabaseError)
        \/ ((exists s, prepare (live w) = Some s)
            /\ e = AttributeError
                     "type object 'GenericDAL' has no attribute '_GenericDAL__init_cron'"
            /\ exists evs,
                 trace w' = trace w ++ evs ++ [LogInfo "Schema is ready"])).
Proof.
  intros HQ Hcase Hinit. unfold GenericDAL_init.
  destruct (ensure_sessions_spec Q w HQ)
    as (Hi & Hl & Hs & Hpg & evs0 & Ht0 & Hq0).
  set (w2 := ensure_async_session dotenv (ensure_sync_session dotenv w)) in *.
  rewrite Hi, Hinit. cbn [negb].
  unfold bind at 1 2 3. unfold call_private.
  rewrite lookup_update_schema, lookup_seed_database.
  rewrite (proj2 lookup_init_cron). cbn zeta.
  assert (Hcase2 : postgres_engine w2 \/ (forall ev, Q ev)).
  { destruct Hcase as [H | H]; [left; now apply Hpg | right; exact H]. }
  pose proof (update_schema_cases Q w2 HQ Hcase2) as Hu.
  destruct (update_schema dotenv prepare produce_migrations apply_ddl w2)
    as [[] w3 | e w3].
  - destruct Hu as (Haft & _ & (s & Hprep) & evs & Ht).
    pose proof Haft as (Hi3 & He3 & Hs3 & _ & _ & evs3 & Ht3 & Hq3).
    unfold seed_database. destruct (SyncSession w3) eqn:Hs3'; [| congruence].
    unfold raise. rewrite (proj1 lookup_init_cron).
    eexists; eexists. split; [reflexivity |].
    split; [congruence |]. split; [| split].
    + intros H e0 He0. apply Hpg in H. apply H. congruence.
    + exists (evs0 ++ evs3). split.
      * rewrite Ht3, Ht0. now rewrite app_assoc.
      * apply Forall_app. now split.
    + right. split; [exists s; congruence |]. split; [reflexivity |].
      exists (evs0 ++ evs). rewrite Ht, Ht0.
      repeat rewrite <- app_assoc. reflexivity.
  - destruct Hu as (-> & [Hnone | (Hprep & ->)]); [contradiction |].
    eexists; eexists. split; [reflexivity |].
    split; [congruence |]. split; [exact Hpg |]. split.
    + exists evs0. now split.
    + left. split; [congruence | reflexivity].
Qed.

End ProgramFacts.

Section ExecutorFacts.
Variable database : Type.
Variable dotenv : environ.
Variable produce_migrations : database -> list MigrateOperation.
Variable apply_ddl : MigrateOperation -> database -> option database.

(** Lines 186-194 invoke the operations of [expand], in order. *)
Lemma invoke_leaf_expand (elem : MigrateOperation) (w : World database) :
  invoke_leaf apply_ddl elem w = run_plan (invoke apply_ddl) (expand elem) w.
Proof.
  assert (Hone : forall op,
             invoke apply_ddl op w = run_plan (invoke apply_ddl) [op] w).
  { intros op. cbn [run_plan].
    destruct (invoke apply_ddl op w) as [[] w' | e w']; reflexivity. }
  destruct elem; cbn [invoke_leaf expand]; try apply Hone.
  destruct (add_using_clause op); [apply Hone | reflexivity].
Qed.

Lemma run_plan_expand (plan : list MigrateOperation) :
  forall w : World database,
    run_plan (invoke_leaf apply_ddl) plan w
    = run_plan (invoke apply_ddl) (flat_map expand plan) w.
Proof.
  induction plan as [|elem plan IH]; intros w; [reflexivity |].
  cbn [flat_map run_plan]. rewrite run_plan_app, invoke_leaf_expand.
  destruct (run_plan (invoke apply_ddl) (expand elem) w) as [[] w' | e w'];
    [apply IH | reflexivity].
Qed.

(** Inside a transaction, a plan either goes through and leaves its
    operations in the trace, or stops at the first operation the database
    rejects. *)
Lemma run_plan_invoke_cases (ops : list MigrateOperation) :
  forall s i se ss ae as_ env lv tr,
    match apply_all apply_ddl ops s with
    | Some s' =>
        run_plan (invoke apply_ddl) ops
                 (mkWorld database i se ss ae as_ env lv (Some s) tr)
        = Return tt (mkWorld database i se ss ae as_ env lv (Some s')
                             (tr ++ map Invoke ops))
    | None =>
        exists done op rest t,
          ops = done ++ op :: rest
          /\ apply_all apply_ddl done s = Some t
          /\ apply_ddl op t = None
          /\ run_plan (invoke apply_ddl) ops
                      (mkWorld database i se ss ae as_ env lv (Some s) tr)
             = Raise DatabaseError
                     (mkWorld database i se ss ae as_ env lv (Some t)
                              (tr ++ map Invoke (done ++ [op])))
    end.
Proof.
  induction ops as [|op ops IH]; intros s i se ss ae as_ env lv tr.
  - cbn. now rewrite app_nil_r.
  - assert (Hstep :
      invoke apply_ddl op (mkWorld database i se ss ae as_ env lv (Some s) tr)
      = match apply_ddl op s with
        | Some s1 =>
            Return tt (mkWorld database i se ss ae as_ env lv (Some s1)
                               (tr ++ [Invoke op]))
        | None =>
            Raise DatabaseError
                  (mkWorld database i se ss ae as_ env lv (Some s)
                           (tr ++ [Invoke op]))
        end).
    { unfold invoke, bind, tell, run_ddl. cbn [txn emit].
      destruct (apply_ddl op s); reflexivity. }
    cbn [apply_all run_plan]. rewrite Hstep. clear Hstep.
    destruct (apply_ddl op s) as [s1 |] eqn:Hop.
    + specialize (IH s1 i se ss ae as_ env lv (tr ++ [Invoke op])).
      destruct (apply_all apply_ddl ops s1) as [s' |].
      * rewrite IH. cbn [map]. now rewrite <- app_assoc.
      * destruct IH as (done & op' & rest & t & Hsplit & Hdone & Hfail & Hrun).
        exists (op :: done), op', rest, t.
        split; [now rewrite Hsplit |].
        split; [cbn [apply_all]; now rewrite Hop |].
        split; [exact Hfail |].
        rewrite Hrun. cbn [app map]. now rewrite <- app_assoc.
    + exists [], op, ops, s. repeat (split; [easy |]). reflexivity.
Qed.

End ExecutorFacts.

Lemma count_cons (p : event -> bool) (ev : event) (evs : list event) :
  count p (ev :: evs) = (if p ev then 1 else 0) + count p evs.
Proof. unfold count. cbn [filter]. now destruct (p ev). Qed.

Lemma migration_plan_nil : migration_plan [] = [].
Proof. reflexivity. Qed.

(** C1. A migration step opens exactly one transaction on the
    administrative connection and never re-raises.  When the database accepts
    every operation of the flattened plan, the operations are invoked in plan
    order, the transaction is committed once and the database is the result
    of the plan.  When the database rejects one of them, the operations
    after it are not invoked, the transaction is rolled back once and never
    committed, the error is logged once, and the database is what it was
    before the step. *)
Theorem migrate_one_transaction {database : Type} (dotenv : environ)
        (produce_migrations : database -> list MigrateOperation)
        (apply_ddl : MigrateOperation -> database -> option database)
        (w : World database) (env : environ) :
  SyncEngine w = Some (create_engine (fst (get_database_url dotenv env false))) ->
  let plan := migration_plan (produce_migrations (live w)) in
  exists (evs : list event) (w' : World database),
    migrate dotenv produce_migrations apply_ddl w = Return tt w'
    /\ trace w' = trace w ++ evs
    /\ txn w' = None
    /\ count is_Begin evs = 1
    /\ match apply_all apply_ddl plan (live w) with
       | Some s =>
           live w' = s
           /\ invoked evs = plan
           /\ count is_Commit evs = 1
           /\ count is_Rollback evs = 0
           /\ count is_LogError evs = 0
       | None =>
           live w' = live w
           /\ count is_Commit evs = 0
           /\ count is_Rollback evs = 1
           /\ count is_LogError evs = 1
           /\ exists done op rest t,
                plan = done ++ op :: rest
                /\ invoked evs = done ++ [op]
                /\ apply_all apply_ddl done (live w) = Some t
                /\ apply_ddl op t = None
       end.
Proof.
  intros Hengine plan.
  assert (Hsqlite : forall e, SyncEngine w = Some e ->
                              String.eqb (Engine_name e) "sqlite" = false).
  { intros e He. rewrite Hengine in He. injection He as <-.
    apply postgresql_is_not_sqlite.
    exact (get_database_url_postgresql dotenv env false). }
  assert (Hsome : SyncEngine w <> None) by congruence.
  clear Hengine. subst plan.
  destruct w as [i se ss ae as_ env0 lv tx tr].
  cbn [SyncEngine live trace txn] in *.
  unfold migrate. cbn [os_environ].
  destruct (get_database_url dotenv env0 false) as [url env1].
  unfold conn_begin, migrate_body, set_environ, set_txn, emit.
  cbn [initialized SyncEngine SyncSession AsyncEngine AsyncSession
       os_environ live txn trace].
  destruct (produce_migrations lv) as [|m ms] eqn:Hdiff.
  - (* nothing to do: the transaction is opened and committed *)
    rewrite migration_plan_nil. cbn [is_empty negb apply_all].
    unfold bind, ret, trans_commit, set_txn, set_live, emit.
    cbn [initialized SyncEngine SyncSession AsyncEngine AsyncSession
         os_environ live txn trace].
    exists [Connect url; Begin; Commit; LogInfo "Schema updated"].
    eexists. split; [reflexivity |].
    cbn [trace txn live]. repeat rewrite <- app_assoc.
    repeat (split; [reflexivity |]). reflexivity.
  - cbn [is_empty negb].
    unfold bind, tell, use_batch_of, emit.
    cbn [initialized SyncEngine SyncSession AsyncEngine AsyncSession
         os_environ live txn trace].
    destruct se as [e |].
    + rewrite (Hsqlite e eq_refl).
      rewrite work_queue_bfs, run_plan_expand.
      change (flat_map expand (bfs_plan [UpgradeOps (m :: ms)]))
        with (migration_plan (m :: ms)).
      pose proof (run_plan_invoke_cases database apply_ddl
                    (migration_plan (m :: ms)) lv i (Some e) ss ae as_ env1 lv
                    (((tr ++ [Connect url]) ++ [Begin])
                       ++ [LogInfo "Updating schema..."])) as Hrun.
      destruct (apply_all apply_ddl (migration_plan (m :: ms)) lv) as [s |].
      * rewrite Hrun.
        unfold trans_commit, set_txn, set_live, emit.
        cbn [initialized SyncEngine SyncSession AsyncEngine AsyncSession
             os_environ live txn trace].
        exists ([Connect url; Begin; LogInfo "Updating schema..."]
                  ++ map Invoke (migration_plan (m :: ms))
                  ++ [Commit; LogInfo "Schema updated"]).
        eexists. split; [reflexivity |].
        cbn [trace txn live].
        split; [repeat rewrite <- app_assoc; reflexivity |].
        split; [reflexivity |].
        rewrite invoked_app, invoked_app, invoked_Invoke.
        repeat rewrite count_app.
        repeat rewrite count_Invoke by reflexivity.
        cbn. rewrite app_nil_r. repeat (split; [reflexivity |]). reflexivity.
      * destruct Hrun as (done & op & rest & t & Hsplit & Hdone & Hfail & Hrun).
        rewrite Hrun.
        unfold trans_rollback, set_txn, emit.
        cbn [initialized SyncEngine SyncSession AsyncEngine AsyncSession
             os_environ live txn trace str_exn].
        exists ([Connect url; Begin; LogInfo "Updating schema..."]
                  ++ map Invoke (done ++ [op])
                  ++ [Rollback;
                      LogError "An error occurred during migration: DatabaseError";
                      LogInfo "Schema updated"]).
        eexists. split; [reflexivity |].
        cbn [trace txn live].
        split; [repeat rewrite <- app_assoc; reflexivity |].
        split; [reflexivity |].
        rewrite invoked_app, invoked_app, invoked_Invoke.
        repeat rewrite count_app.
        repeat rewrite count_Invoke by reflexivity.
        cbn. rewrite app_nil_r. repeat (split; [reflexivity |]).
        exists done, op, rest, t. repeat (split; [assumption |]).
        now split.
    + now contradiction Hsome.
Qed.

Lemma migrate_one_transaction_witness :
  exists evs w',
    migrate Demo.dotenv Demo.produce_migrations Demo.apply_ddl Demo.ready
    = Return tt w'
    /\ trace w' = trace Demo.ready ++ evs
    /\ txn w' = None
    /\ count is_Begin evs = 1.
Proof.
  destruct (migrate_one_transaction Demo.dotenv Demo.produce_migrations
              Demo.apply_ddl Demo.ready Demo.environment eq_refl)
    as (evs & w' & Hrun & Htrace & Htxn & Hbegin & _).
  exists evs, w'. repeat (split; [assumption |]). assumption.
Defined.

(** C5, as the code has it. When Alembic finds nothing to change, the
    migration step invokes no operation, but it still opens one transaction
    on the administrative connection and commits it: the transaction is
    begun before the difference is computed. *)
Theorem migrate_empty_diff {database : Type} (dotenv : environ)
        (produce_migrations : database -> list MigrateOperation)
        (apply_ddl : MigrateOperation -> database -> option database)
        (w : World database) :
  is_empty (produce_migrations (live w)) = true ->
  exists (url : string) (w' : World database),
    migrate dotenv produce_migrations apply_ddl w = Return tt w'
    /\ trace w'
       = trace w ++ [Connect url; Begin; Commit; LogInfo "Schema updated"]
    /\ live w' = live w
    /\ txn w' = None.
Proof.
  intros Hempty.
  destruct w as [i se ss ae as_ env0 lv tx tr].
  cbn [live trace] in *.
  unfold migrate. cbn [os_environ].
  destruct (get_database_url dotenv env0 false) as [url env1].
  unfold conn_begin, migrate_body, set_environ, set_txn, emit.
  cbn [initialized SyncEngine SyncSession AsyncEngine AsyncSession
       os_environ live txn trace].
  rewrite Hempty. cbn [negb].
  unfold bind, ret, trans_commit, set_txn, set_live, emit.
  cbn [initialized SyncEngine SyncSession AsyncEngine AsyncSession
       os_environ live txn trace].
  exists url. eexists. split; [reflexivity |].
  cbn [trace txn live]. repeat rewrite <- app_assoc.
  repeat (split; [reflexivity |]). reflexivity.
Qed.

Lemma migrate_empty_diff_witness :
  exists url w',
    migrate Demo.dotenv Demo.no_changes Demo.apply_ddl Demo.start = Return tt w'
    /\ trace w'
       = trace Demo.start ++ [Connect url; Begin; Commit; LogInfo "Schema updated"].
Proof.
  destruct (migrate_empty_diff Demo.dotenv Demo.no_changes Demo.apply_ddl
              Demo.start eq_refl) as (url & w' & Hrun & Htrace & _).
  exists url, w'. split; assumption.
Defined.

(** C5, as the specification words it, fails: with nothing to change, a
    transaction is opened all the same. *)
Lemma empty_diff_opens_a_transaction :
  ~ (is_empty (Demo.no_changes (live Demo.start)) = true ->
     count is_Begin
           (trace (state_of (migrate Demo.dotenv Demo.no_changes Demo.apply_ddl
                                     Demo.start))) = 0).
Proof.
  intros H. specialize (H eq_refl). vm_compute in H. discriminate H.
Qed.

(** ** The constructor *)

(** C8. Whenever the flag [initialized] is not set, a construction of
    [GenericDAL] does not return: the class binds no [__init_cron]
    ([_GenericDAL__init_cron] once mangled), so when the schema update and
    the seeding have run, the call raises [AttributeError], and in every
    case the exception leaves the constructor with the flag still unset. *)
Theorem init_raises_before_flag_is_set {database : Type} (dotenv : environ)
        (prepare : database -> option database)
        (produce_migrations : database -> list MigrateOperation)
        (apply_ddl : MigrateOperation -> database -> option database)
        (w : World database) :
  initialized w = false ->
  class_getattr GenericDAL_dict (mangle "GenericDAL" "__init_cron") = None
  /\ (exists e w',
        GenericDAL_init dotenv prepare produce_migrations apply_ddl w
        = Raise e w'
        /\ initialized w' = false)
  /\ (forall s, prepare (live w) = Some s ->
        exists evs w',
          GenericDAL_init dotenv prepare produce_migrations apply_ddl w
          = Raise (AttributeError
                     "type object 'GenericDAL' has no attribute '_GenericDAL__init_cron'")
                  w'
          /\ initialized w' = false
          /\ trace w' = trace w ++ evs ++ [LogInfo "Schema is ready"]).
Proof.
  intros Hinit.
  destruct (GenericDAL_init_cases database dotenv prepare produce_migrations
              apply_ddl (fun _ => True) w (fun _ _ => I) (or_intror (fun _ => I))
              Hinit)
    as (e & w' & Hrun & Hflag & _ & _ & Hcases).
  split; [reflexivity | split].
  - now exists e, w'.
  - intros s Hprep.
    destruct Hcases as [[Hnone _] | (_ & -> & evs & Htrace)]; [congruence |].
    now exists evs, w'.
Qed.

Lemma init_raises_before_flag_is_set_witness :
  initialized Demo.start = false
  /\ exists e w',
       Demo.construct Demo.produce_migrations Demo.start = Raise e w'
       /\ initialized w' = false.
Proof.
  split; [reflexivity |].
  exact (proj1 (proj2 (init_raises_before_flag_is_set
                         Demo.dotenv Demo.prepare Demo.produce_migrations
                         Demo.apply_ddl Demo.start eq_refl))).
Defined.

(** C2 fails on the code.  Two constructions in a row, in a process that
    goes on after the first one raised: the flag is unset after each of
    them and the pipeline (statements, reflection, transaction) has run
    twice. *)
Theorem pipeline_runs_at_every_construction :
  let first := Demo.construct Demo.produce_migrations Demo.start in
  let second := Demo.construct Demo.produce_migrations (state_of first) in
  initialized (state_of first) = false
  /\ initialized (state_of second) = false
  /\ count is_Begin (trace (state_of first)) = 1
  /\ count is_Begin (trace (state_of second)) = 2
  /\ length (filter (fun ev => match ev with Reflect => true | _ => false end)
                    (trace (state_of second))) = 2.
Proof. vm_compute. repeat (split; [reflexivity |]). reflexivity. Qed.

(** ** The accessors *)

Section AccessorFacts.
Variable database entity : Type.
Variable attached : entity -> bool.
Variable delete_row : entity -> database -> option database.

(** What [remove] and [async_remove] do once their session exists. *)
Lemma delete_and_commit (obj : entity) (w : World database) :
  (session_delete attached obj >> session_commit delete_row obj >> ret true) w
  = if attached obj then
      match delete_row obj (live w) with
      | Some s =>
          Return true (emit SessionCommit (set_live s (emit SessionDelete w)))
      | None => Raise DatabaseError (emit SessionDelete w)
      end
    else Raise InvalidRequestError w.
Proof.
  unfold bind, session_delete, session_commit, ret.
  destruct (attached obj); [| reflexivity].
  cbn [live emit]. destruct (delete_row obj (live w)); reflexivity.
Qed.

Lemma delete_and_commit_after (Q : event -> Prop) (obj : entity)
      (w : World database) :
  (forall ev, is_batch ev = false -> Q ev) ->
  after Q w (state_of ((session_delete attached obj
                          >> session_commit delete_row obj >> ret true) w)).
Proof.
  intros HQ. rewrite delete_and_commit.
  destruct (attached obj); [| apply after_refl].
  destruct (delete_row obj (live w)); cbn [state_of].
  - eapply after_trans; [| apply after_emit, HQ; reflexivity].
    eapply after_trans; [| apply after_set_live].
    apply after_emit, HQ. reflexivity.
  - apply after_emit, HQ. reflexivity.
Qed.

Lemma remove_after (Q : event -> Prop) (obj : entity) (w : World database) :
  (forall ev, is_batch ev = false -> Q ev) ->
  after Q w (state_of (remove attached delete_row obj w))
  /\ after Q w (state_of (async_remove attached delete_row obj w)).
Proof.
  intros HQ. unfold remove, async_remove. split.
  - destruct (SyncSession w); [now apply delete_and_commit_after | apply after_refl].
  - destruct (AsyncSession w); [now apply delete_and_commit_after | apply after_refl].
Qed.

End AccessorFacts.

(** C10. For every object, [remove] and [async_remove] return [True]
    whenever they return, and a deletion the session or the database
    refuses is raised as an exception, never returned as [False]; with a
    session, an accepted object and a database that takes the deletion they
    do return. *)
Theorem remove_returns_True {database entity : Type}
        (attached : entity -> bool)
        (delete_row : entity -> database -> option database)
        (obj : entity) (w : World database) :
  (forall b w', remove attached delete_row obj w = Return b w' -> b = true)
  /\ (forall b w',
        async_remove attached delete_row obj w = Return b w' -> b = true)
  /\ (attached obj = false \/ delete_row obj (live w) = None ->
        (exists e w', remove attached delete_row obj w = Raise e w')
        /\ (exists e w', async_remove attached delete_row obj w = Raise e w'))
  /\ (attached obj = true ->
      forall s, delete_row obj (live w) = Some s ->
        (SyncSession w <> None ->
           exists w', remove attached delete_row obj w = Return true w'
                      /\ live w' = s)
        /\ (AsyncSession w <> None ->
              exists w', async_remove attached delete_row obj w = Return true w'
                         /\ live w' = s)).
Proof.
  unfold remove, async_remove.
  pose proof (delete_and_commit database entity attached delete_row obj w) as H.
  split; [| split; [| split]].
  - intros b w'. destruct (SyncSession w); [| discriminate].
    rewrite H. destruct (attached obj); [| discriminate].
    destruct (delete_row obj (live w)); [| discriminate].
    now intros [= <- _].
  - intros b w'. destruct (AsyncSession w); [| discriminate].
    rewrite H. destruct (attached obj); [| discriminate].
    destruct (delete_row obj (live w)); [| discriminate].
    now intros [= <- _].
  - intros Hfail. rewrite H.
    split.
    + destruct (SyncSession w); [| now eexists; eexists].
      destruct Hfail as [-> | Hrow]; [now eexists; eexists |].
      rewrite Hrow. destruct (attached obj); now eexists; eexists.
    + destruct (AsyncSession w); [| now eexists; eexists].
      destruct Hfail as [-> | Hrow]; [now eexists; eexists |].
      rewrite Hrow. destruct (attached obj); now eexists; eexists.
  - intros Hatt s Hrow. rewrite H, Hatt, Hrow. split.
    + intros Hs. destruct (SyncSession w); [| contradiction].
      eexists. split; reflexivity.
    + intros Hs. destruct (AsyncSession w); [| contradiction].
      eexists. split; reflexivity.
Qed.

Lemma remove_returns_True_witness :
  (exists w', remove Demo.attached Demo.delete_row 7 Demo.ready = Return true w')
  /\ (exists e w',
        remove Demo.attached Demo.referenced 7 Demo.ready = Raise e w')
  /\ (exists e w',
        async_remove Demo.detached Demo.delete_row 7 Demo.ready = Raise e w').
Proof.
  split; [| split].
  - destruct (proj2 (proj2 (proj2
        (remove_returns_True Demo.attached Demo.delete_row 7 Demo.ready)))
        eq_refl (live Demo.ready) eq_refl) as [Hsync _].
    destruct Hsync as (w' & Hrun & _); [discriminate |].
    now exists w'.
  - exact (proj1 (proj1 (proj2 (proj2
        (remove_returns_True Demo.attached Demo.referenced 7 Demo.ready)))
        (or_intror eq_refl))).
  - exact (proj2 (proj1 (proj2 (proj2
        (remove_returns_True Demo.detached Demo.delete_row 7 Demo.ready)))
        (or_introl eq_refl))).
Defined.

(** ** The engine is always a PostgreSQL engine *)

Section ReachableFacts.
Variable database entity : Type.
Variable dotenv : environ.
Variable prepare : database -> option database.
Variable produce_migrations : database -> list MigrateOperation.
Variable apply_ddl : MigrateOperation -> database -> option database.
Variable attached : entity -> bool.
Variable delete_row : entity -> database -> option database.

(** In every world of a run the flag is unset, the engine (when there is
    one) is a PostgreSQL engine, and no batch event has occurred. *)
Lemma reachable_invariant (w : World database) :
  reachable dotenv prepare produce_migrations apply_ddl attached delete_row w ->
  initialized w = false
  /\ postgres_engine w
  /\ Forall (fun ev => is_batch ev = false) (trace w).
Proof.
  assert (Hafter : forall w0 w1 : World database,
    initialized w0 = false /\ postgres_engine w0
    /\ Forall (fun ev => is_batch ev = false) (trace w0) ->
    after (fun ev => is_batch ev = false) w0 w1 ->
    initialized w1 = false /\ postgres_engine w1
    /\ Forall (fun ev => is_batch ev = false) (trace w1)).
  { intros w0 w1 (Hi & Hpg & Htr) (Hi' & He' & _ & _ & _ & evs & Ht & Hq).
    split; [congruence | split].
    - intros e He. apply Hpg. congruence.
    - rewrite Ht. apply Forall_app. now split. }
  induction 1 as [env db | w Hw IH | obj w Hw IH | obj w Hw IH].
  - repeat split; [intros e; discriminate | constructor].
  - destruct IH as (Hi & Hpg & Htr).
    destruct (GenericDAL_init_cases database dotenv prepare produce_migrations
                apply_ddl (fun ev => is_batch ev = false) w
                (fun _ H => H) (or_introl Hpg) Hi)
      as (e & w' & Hrun & Hflag & Hpg' & (evs & Ht & Hq) & _).
    rewrite Hrun. cbn [state_of].
    split; [exact Hflag | split; [now apply Hpg' |]].
    rewrite Ht. apply Forall_app. now split.
  - apply (Hafter w); [exact IH |].
    apply (remove_after database entity attached delete_row). now intros ev.
  - apply (Hafter w); [exact IH |].
    apply (remove_after database entity attached delete_row). now intros ev.
Qed.

End ReachableFacts.

(** C9. [get_database_url] returns a URL whose backend is [postgresql]
    whatever the environment, the [.env] file and the driver flag.  Hence in
    every world of a run the engine is never named [sqlite], [use_batch]
    is [False] whenever it is computed, and no operation ever goes through
    [batch_alter_table]. *)
Theorem batch_branch_unreachable {database entity : Type} (dotenv : environ)
        (prepare : database -> option database)
        (produce_migrations : database -> list MigrateOperation)
        (apply_ddl : MigrateOperation -> database -> option database)
        (attached : entity -> bool)
        (delete_row : entity -> database -> option database)
        (w : World database) :
  reachable dotenv prepare produce_migrations apply_ddl attached delete_row w ->
  (forall env async_driver,
      get_backend_name (fst (get_database_url dotenv env async_driver))
      = "postgresql")
  /\ (forall e, SyncEngine w = Some e ->
                Engine_name e = "postgresql"
                /\ String.eqb (Engine_name e) "sqlite" = false)
  /\ (forall use_batch w',
        use_batch_of w = Return use_batch w' -> use_batch = false)
  /\ count is_batch (trace w) = 0
  /\ count is_batch
           (trace (state_of (GenericDAL_init dotenv prepare produce_migrations
                                             apply_ddl w))) = 0.
Proof.
  intros Hreach.
  pose proof (reachable_invariant _ _ _ _ _ _ _ _ w Hreach) as (_ & Hpg & Htr).
  split; [intros env a; apply get_database_url_postgresql |].
  split; [| split; [| split]].
  - intros e He. split; [now apply Hpg |].
    now apply postgresql_is_not_sqlite, Hpg.
  - intros b w'. unfold use_batch_of.
    destruct (SyncEngine w) as [e |] eqn:He; [| discriminate].
    intros [= <- _]. now apply postgresql_is_not_sqlite, Hpg.
  - now apply count_none.
  - apply count_none.
    apply (reachable_invariant _ _ _ _ _ _ _ _ _ (reach_init _ _ _ _ _ _ _ _ w Hreach)).
Qed.

Lemma batch_branch_unreachable_witness :
  count is_batch
        (trace (state_of (Demo.construct Demo.produce_migrations Demo.start))) = 0.
Proof.
  exact (proj1 (proj2 (proj2 (proj2
    (batch_branch_unreachable Demo.dotenv Demo.prepare Demo.produce_migrations
       Demo.apply_ddl Demo.attached Demo.delete_row _
       (reach_init _ _ _ _ _ _ _ _ _
          (reach_start _ _ _ _ _ _ _ _ Demo.environment []))))))).
Defined.

(** ** Runs on the example database *)

Example to_hex_examples :
  pg.to_hex 255 = "ff" /\ pg.to_hex 0 = "0" /\ pg.to_hex (-1) = "ffffffff".
Proof. repeat split. Qed.

Example lpad_cuts_on_the_right : pg.lpad "123456789abcdef0" 12 "0" = "123456789abc".
Proof. reflexivity. Qed.

Example to_hex64_examples :
  pg.to_hex64 255 = "ff" /\ pg.to_hex64 (2 ^ 32 + 255) = "1000000ff"
  /\ pg.to_hex64 (2 ^ 48) = "1000000000000"
  /\ pg.to_hex64 (-1) = "ffffffffffffffff".
Proof. repeat split. Qed.

(** In a [bigint] column, [2 ^ 48] and [2 ^ 44] get the same UUID. *)
Example bigint_uuids_collide :
  pg.eval (stored (pg.BigIntVal (2 ^ 48))) (pg.integer_to_uuid "counter")
  = Some (pg.UuidVal "00000000-0000-0000-0000-100000000000")
  /\ pg.eval (stored (pg.BigIntVal (2 ^ 44))) (pg.integer_to_uuid "counter")
     = Some (pg.UuidVal "00000000-0000-0000-0000-100000000000").
Proof. split; reflexivity. Qed.

Example bfs_plan_upgrade :
  bfs_plan [UpgradeOps Demo.upgrade]
  = [CreateTableOp "link"; AlterColumn Demo.port_to_integer;
     AddColumnOp "device" "vlan" sa.Integer].
Proof. reflexivity. Qed.

(** With batches the loop would invoke the operations of a table where it
    meets the table, which is not the breadth-first order. *)
Example batches_change_the_order :
  work_queue (fun elem plan =>
                match ops_attr elem with
                | Some ops => Return tt (plan ++ ops)
                | None => Return tt plan
                end)
             (fun op plan => Return tt (plan ++ [op]))
             true [UpgradeOps Demo.upgrade] []
  = Return tt [AlterColumn Demo.port_to_integer;
               AddColumnOp "device" "vlan" sa.Integer; CreateTableOp "link"].
Proof. reflexivity. Qed.

(** The first construction on the empty example database applies the plan;
    the rewritten column change carries its [USING] clause. *)
Example first_construction_migrates :
  let w := state_of (Demo.construct Demo.produce_migrations Demo.start) in
  invoked (trace w) = migration_plan Demo.upgrade
  /\ live w = migration_plan Demo.upgrade
  /\ map (fun op => match op with
                    | AlterColumn a => postgresql_using a
                    | _ => None
                    end) (live w)
     = [None;
        Some "COALESCE(NULLIF(REGEXP_REPLACE(port, '[^0-9]', '', 'g'), ''), '0')::integer";
        None].
Proof. vm_compute. repeat split. Qed.

(** A plan whose second operation is rejected: the third is never invoked,
    nothing is committed and the database is as before. *)
Example rejected_plan_is_rolled_back :
  let w := state_of (migrate Demo.dotenv Demo.failing Demo.apply_ddl Demo.ready) in
  live w = []
  /\ txn w = None
  /\ invoked (trace w) = [CreateTableOp "link"; DropTableOp "ghost"]
  /\ count is_Begin (trace w) = 1
  /\ count is_Commit (trace w) = 0
  /\ count is_Rollback (trace w) = 1
  /\ count is_LogError (trace w) = 1.
Proof. vm_compute. repeat split. Qed.

(** * More properties of the backend *)

(** ** The rewriting, once more *)

(** X1. Rewriting is idempotent on what it returns as one operation: an
    operation that [add_using_clause] returned alone is returned unchanged
    when it is rewritten again. *)
Theorem add_using_clause_idempotent (op op' : AlterColumnOp) :
  add_using_clause op = OneOp op' -> add_using_clause op' = OneOp op'.
Proof.
  unfold add_using_clause at 1.
  destruct (sa.isinstance (modify_type op) sa.Integer
            && sa.isinstance (existing_type op) sa.Text) eqn:H1.
  - intros [= <-]. unfold add_using_clause.
    cbn [modify_type existing_type]. rewrite H1. reflexivity.
  - destruct (sa.isinstance (modify_type op) sa.UUID
              && sa.isinstance (existing_type op) sa.Integer) eqn:H2;
      [discriminate |].
    intros [= <-]. unfold add_using_clause. now rewrite H1, H2.
Qed.

Lemma add_using_clause_idempotent_witness :
  exists op',
    add_using_clause Demo.port_to_integer = OneOp op'
    /\ add_using_clause op' = OneOp op'.
Proof.
  eexists. split; [reflexivity |].
  exact (add_using_clause_idempotent Demo.port_to_integer _ eq_refl).
Defined.

(** X2. Whatever the operation, [add_using_clause] returns one operation
    or three, all on the table and the column of the operation given; it
    returns three exactly when the change is from [Integer] to [UUID] (and
    not from [Text] to [Integer]), and those three carry no schema, whatever
    the schema of the operation given. *)
Theorem add_using_clause_targets (op : AlterColumnOp) :
  let rs := returned_ops (add_using_clause op) in
  (length rs = 1 \/ length rs = 3)
  /\ Forall (fun r => table_name r = table_name op
                      /\ column_name r = column_name op) rs
  /\ (length rs = 3 <->
      sa.isinstance (modify_type op) sa.UUID
        && sa.isinstance (existing_type op) sa.Integer = true)
  /\ (length rs = 3 -> Forall (fun r => schema r = None) rs)
  /\ (length rs = 1 -> Forall (fun r => schema r = schema op) rs).
Proof.
  unfold add_using_clause.
  destruct (sa.isinstance (modify_type op) sa.Integer
            && sa.isinstance (existing_type op) sa.Text) eqn:H1.
  - assert (H2 : sa.isinstance (modify_type op) sa.UUID
                 && sa.isinstance (existing_type op) sa.Integer = false).
    { destruct (modify_type op) as [[]|]; simpl in *;
        reflexivity || discriminate. }
    rewrite H2. cbn.
    repeat split; try discriminate; auto.
  - destruct (sa.isinstance (modify_type op) sa.UUID
              && sa.isinstance (existing_type op) sa.Integer) eqn:H2; cbn.
    + repeat split; try discriminate; auto.
    + repeat split; try discriminate; auto.
Qed.

(** X3. The rewriting leaves every other operation alone: the operations
    of the plan that are not column alterations are those of the tree, in
    breadth-first order. *)
Theorem migration_plan_keeps_other_operations
        (upgrade_ops : list MigrateOperation) :
  filter (fun op => negb (is_AlterColumn op)) (migration_plan upgrade_ops)
  = filter (fun op => negb (is_AlterColumn op)) (bfs_plan [UpgradeOps upgrade_ops]).
Proof.
  unfold migration_plan.
  induction (bfs_plan [UpgradeOps upgrade_ops]) as [|elem plan IH];
    [reflexivity |].
  cbn [flat_map]. rewrite filter_app, IH. cbn [filter].
  destruct elem; cbn [expand is_AlterColumn negb filter app]; try reflexivity.
  destruct (add_using_clause op) as [op' | ops]; cbn; [reflexivity |].
  induction ops as [|o ops IHops]; cbn; [reflexivity | exact IHops].
Qed.

(** ** The order of the plan *)

Lemma flat_map_dfs_container (elem : MigrateOperation) :
  dfs_leaves elem
  = match ops_attr elem with
    | Some ops => flat_map dfs_leaves ops
    | None => [elem]
    end.
Proof. destruct elem; reflexivity. Qed.

Lemma leaves_children_dfs (level : list MigrateOperation) :
  Permutation (leaves level ++ flat_map dfs_leaves (children level))
              (flat_map dfs_leaves level).
Proof.
  induction level as [|elem level IH]; [constructor |].
  cbn [leaves children flat_map]. rewrite (flat_map_dfs_container elem).
  destruct (ops_attr elem) as [ops |].
  - rewrite flat_map_app.
    rewrite app_assoc.
    rewrite (Permutation_app_comm (leaves level) (flat_map dfs_leaves ops)).
    rewrite <- app_assoc. now apply Permutation_app_head.
  - cbn [app]. now constructor.
Qed.

Lemma leaves_are_leaves (level : list MigrateOperation) :
  Forall (fun op => ops_attr op = None) (leaves level).
Proof.
  induction level as [|elem level IH]; cbn [leaves]; [constructor |].
  destruct (ops_attr elem) eqn:He; [exact IH | now constructor].
Qed.

(** X4. Flattening neither loses nor repeats an operation, and the plan
    holds no container: for every list of trees, [bfs_plan] is a
    permutation of their operations taken depth first. *)
Theorem bfs_plan_permutation (stack : list MigrateOperation) :
  Permutation (bfs_plan stack) (flat_map dfs_leaves stack)
  /\ Forall (fun op => ops_attr op = None) (bfs_plan stack).
Proof.
  induction stack as [stack IH] using (induction_ltof1 _ forest_size).
  unfold ltof in IH.
  destruct stack as [|elem rest].
  - rewrite bfs_plan_equation_1. split; constructor.
  - rewrite bfs_plan_cons.
    assert (Hlt : forest_size (children (elem :: rest))
                  < forest_size (elem :: rest)).
    { pose proof (forest_size_children (elem :: rest)) as H.
      cbn [length] in H. lia. }
    destruct (IH _ Hlt) as [Hperm Hleaf]. split.
    + etransitivity; [| apply leaves_children_dfs].
      now apply Permutation_app_head.
    + apply Forall_app. split; [apply leaves_are_leaves | exact Hleaf].
Qed.

Lemma leaves_of_leaves (level : list MigrateOperation) :
  Forall (fun op => ops_attr op = None) level ->
  leaves level = level /\ children level = [].
Proof.
  induction 1 as [|elem level He _ [IH1 IH2]]; [split; reflexivity |].
  cbn [leaves children]. rewrite He, IH1, IH2. split; reflexivity.
Qed.

(** X5. For a tree of the shape Alembic produces (operations and tables
    under [UpgradeOps], operations only under each table), the plan is the
    operations that stand directly under [UpgradeOps], in their order,
    followed by the operations of the tables, table after table: an
    operation on a whole table is applied before every column operation,
    wherever it stood. *)
Theorem bfs_plan_two_levels (upgrade_ops : list MigrateOperation) :
  Forall (fun op => ops_attr op = None) (children upgrade_ops) ->
  bfs_plan [UpgradeOps upgrade_ops] = leaves upgrade_ops ++ children upgrade_ops.
Proof.
  intros Hflat.
  rewrite bfs_plan_cons. cbn [leaves children ops_attr app].
  rewrite app_nil_r.
  destruct upgrade_ops as [|elem rest]; [reflexivity |].
  rewrite bfs_plan_cons. f_equal.
  destruct (leaves_of_leaves _ Hflat) as [Hl Hc].
  destruct (children (elem :: rest)) as [|c cs]; [reflexivity |].
  rewrite bfs_plan_cons, Hl, Hc. rewrite bfs_plan_equation_1.
  now rewrite app_nil_r.
Qed.

Lemma bfs_plan_two_levels_witness :
  bfs_plan [UpgradeOps Demo.upgrade]
  = leaves Demo.upgrade ++ children Demo.upgrade.
Proof.
  apply bfs_plan_two_levels.
  repeat constructor.
Defined.

(** ** The connection URL, once more *)

Lemma load_dotenv_idempotent (dotenv env : environ) (key : string) :
  load_dotenv dotenv (load_dotenv dotenv env) key = load_dotenv dotenv env key.
Proof.
  unfold load_dotenv. destruct (env key); [reflexivity |].
  destruct (dotenv key); reflexivity.
Qed.

(** X6. The URL does not drift: a call of [get_database_url] on the
    environment an earlier call left returns the same user, password, host,
    port and database name, and the URLs of the two drivers differ in the
    driver only. *)
Theorem get_database_url_stable (dotenv env : environ) (async_driver : bool) :
  let env1 := snd (get_database_url dotenv env async_driver) in
  exists tail : string,
    fst (get_database_url dotenv env false)
    = ("postgresql+psycopg2://" ++ tail)%string
    /\ fst (get_database_url dotenv env true)
       = ("postgresql+asyncpg://" ++ tail)%string
    /\ fst (get_database_url dotenv env1 false)
       = ("postgresql+psycopg2://" ++ tail)%string
    /\ fst (get_database_url dotenv env1 true)
       = ("postgresql+asyncpg://" ++ tail)%string.
Proof.
  unfold get_database_url. cbn [fst snd].
  exists (getenv (load_dotenv dotenv env) "DB_USER" "postgres" ++ ":"
          ++ getenv (load_dotenv dotenv env) "DB_PASS" "postgres" ++ "@"
          ++ getenv (load_dotenv dotenv env) "DB_HOST" "localhost" ++ ":"
          ++ getenv (load_dotenv dotenv env) "DB_PORT" "5432" ++ "/"
          ++ getenv (load_dotenv dotenv env) "DB_NAME" "postgres")%string.
  unfold getenv. repeat rewrite load_dotenv_idempotent.
  repeat split; reflexivity.
Qed.

(** ** Transactions and pools over a whole run *)

Section PipelineFacts.
Variable database : Type.
Variable dotenv : environ.
Variable prepare : database -> option database.
Variable produce_migrations : database -> list MigrateOperation.
Variable apply_ddl : MigrateOperation -> database -> option database.
Implicit Types (w : World database) (Q : event -> Prop).

Lemma invoke_batch_quiet elem w :
  after quiet w (state_of (invoke_batch apply_ddl elem w)).
Proof.
  destruct elem; cbn [invoke_batch ret state_of]; try apply after_refl.
  unfold bind, tell.
  apply (after_trans _ quiet w (emit (BatchAlterTable table schema_) w));
    [apply after_emit; now repeat split |].
  apply (run_plan_preserves (after quiet));
    [apply after_refl | apply after_trans |].
  intros op st. apply batch_invoke_after. now repeat split.
Qed.

Lemma update_loop_quiet w (ms : list MigrateOperation) :
  after quiet w
    (state_of ((tell (LogInfo "Updating schema...") >>
                bind use_batch_of
                  (fun use_batch =>
                     work_queue (invoke_batch apply_ddl) (invoke_leaf apply_ddl)
                                use_batch [UpgradeOps ms])) w)).
Proof.
  unfold bind, tell, use_batch_of.
  set (w1 := emit (LogInfo "Updating schema...") w).
  assert (H1 : after quiet w w1) by (apply after_emit; now repeat split).
  change (SyncEngine w1) with (SyncEngine w).
  destruct (SyncEngine w) as [e |]; [| exact H1].
  eapply after_trans; [exact H1 |].
  apply (work_queue_preserves (after quiet));
    [apply after_refl | apply after_trans | |].
  - intros elem st. apply invoke_batch_quiet.
  - intros elem st. apply invoke_leaf_after. intros op. now repeat split.
Qed.

(** The shape of the trace of a migration step, whatever the engine. *)
Lemma migrate_shape w :
  exists url mid last w',
    migrate dotenv produce_migrations apply_ddl w = Return tt w'
    /\ trace w' = trace w ++ [Connect url; Begin] ++ mid ++ last
    /\ Forall quiet mid
    /\ (last = [Commit; LogInfo "Schema updated"]
        \/ exists m, last = [Rollback; LogError m; LogInfo "Schema updated"])
    /\ txn w' = None
    /\ initialized w' = initialized w
    /\ SyncSession w' = SyncSession w
    /\ AsyncSession w' = AsyncSession w
    /\ SyncEngine w' = SyncEngine w
    /\ AsyncEngine w' = AsyncEngine w.
Proof.
  unfold migrate.
  destruct (get_database_url dotenv (os_environ w) false) as [url env].
  set (w1 := conn_begin (emit (Connect url) (set_environ env w))).
  assert (Ht1 : trace w1 = trace w ++ [Connect url; Begin]).
  { unfold w1, conn_begin. cbn. now rewrite <- app_assoc. }
  assert (Hbody : exists mid w2,
             after quiet w1 w2
             /\ trace w2 = trace w1 ++ mid /\ Forall quiet mid
             /\ ((exists w3, migrate_body produce_migrations apply_ddl w1
                             = Return tt w3
                             /\ trace w3 = trace w2 ++ [Commit]
                             /\ txn w3 = None
                             /\ after (fun _ => True) w2 w3)
                 \/ exists e, migrate_body produce_migrations apply_ddl w1
                              = Raise e w2)).
  { assert (Hcommit : forall w2,
               exists w3, trans_commit w2 = Return tt w3
                          /\ trace w3 = trace w2 ++ [Commit]
                          /\ txn w3 = None
                          /\ after (fun _ => True) w2 w3).
    { intros w2. eexists. split; [reflexivity |].
      split; [| split].
      - destruct (txn w2); reflexivity.
      - destruct (txn w2) eqn:Ht; cbn; [reflexivity | exact Ht].
      - apply (trans_commit_after database (fun _ => True) w2 I). }
    unfold migrate_body.
    destruct (is_empty (produce_migrations (live w1))); cbn [negb].
    - exists [], w1. split; [apply after_refl |].
      split; [now rewrite app_nil_r |]. split; [constructor |].
      left. unfold bind, ret. apply Hcommit.
    - pose proof (update_loop_quiet w1 (produce_migrations (live w1))) as Hl.
      set (loop := tell (LogInfo "Updating schema...") >>
                   bind use_batch_of
                     (fun use_batch =>
                        work_queue (invoke_batch apply_ddl)
                          (invoke_leaf apply_ddl) use_batch
                          [UpgradeOps (produce_migrations (live w1))])) in *.
      unfold bind.
      destruct (loop w1) as [[] w2 | e w2]; cbn [state_of] in Hl;
        pose proof Hl as (_ & _ & _ & _ & _ & mid & Hmid & Hq);
        exists mid, w2; (split; [exact Hl |]);
        (split; [exact Hmid |]); (split; [exact Hq |]).
      + left. apply Hcommit.
      + right. exists e. reflexivity. }
  assert (H01 : initialized w1 = initialized w
                /\ SyncEngine w1 = SyncEngine w
                /\ SyncSession w1 = SyncSession w
                /\ AsyncEngine w1 = AsyncEngine w
                /\ AsyncSession w1 = AsyncSession w).
  { repeat split. }
  destruct H01 as (Hi1 & Hse1 & Hss1 & Hae1 & Has1).
  destruct Hbody as (mid & w2 & H12 & Ht2 & Hq & [Hok | Hfail]).
  - destruct Hok as (w3 & Hrun & Ht3 & Htxn & H23).
    rewrite Hrun.
    exists url, mid, [Commit; LogInfo "Schema updated"]. eexists.
    split; [reflexivity |].
    destruct H12 as (Ha & Hb & Hc & Hd & He & _).
    destruct H23 as (Ha' & Hb' & Hc' & Hd' & He' & _).
    split.
    { cbn [trace emit]. rewrite Ht3, Ht2, Ht1.
      repeat rewrite <- app_assoc. reflexivity. }
    split; [exact Hq |]. split; [now left |].
    cbn [txn initialized SyncSession AsyncSession SyncEngine AsyncEngine emit].
    repeat split; congruence.
  - destruct Hfail as (e & Hrun). rewrite Hrun.
    exists url, mid,
      [Rollback; LogError ("An error occurred during migration: " ++ str_exn e);
       LogInfo "Schema updated"].
    eexists. split; [reflexivity |].
    destruct H12 as (Ha & Hb & Hc & Hd & He & _).
    split.
    { unfold trans_rollback. cbn [trace emit set_txn]. rewrite Ht2, Ht1.
      repeat rewrite <- app_assoc. reflexivity. }
    split; [exact Hq |]. split; [right; now eexists |].
    unfold trans_rollback.
    cbn [txn initialized SyncSession AsyncSession SyncEngine AsyncEngine
         emit set_txn].
    repeat split; congruence.
Qed.

Lemma quiet_event (ev : event) :
  quiet ev ->
  is_Begin ev = false /\ is_Commit ev = false /\ is_Rollback ev = false
  /\ is_LogError ev = false /\ is_CreateEngine ev = false
  /\ is_CreateAsyncEngine ev = false /\ schema_event ev = true.
Proof.
  unfold quiet, is_transaction_event.
  destruct ev; cbn; intros (H1 & H2 & H3 & H4); repeat split; congruence.
Qed.

Lemma quiet_no_connect (mid : list event) :
  Forall quiet mid -> count is_Connect mid = 0.
Proof.
  intros H. apply count_none. eapply Forall_impl; [| exact H].
  intros ev (_ & _ & _ & H4). exact H4.
Qed.

Lemma quiet_counts (mid : list event) :
  Forall quiet mid ->
  count is_Begin mid = 0 /\ count is_Commit mid = 0
  /\ count is_Rollback mid = 0 /\ count is_LogError mid = 0
  /\ Forall (fun ev => schema_event ev = true) mid.
Proof.
  intros H.
  repeat split; try apply count_none;
    (eapply Forall_impl; [| exact H]); intros ev Hev;
    apply quiet_event in Hev; tauto.
Qed.

(** What [__update_schema] adds to the trace, whether it returns or
    raises. *)
Lemma update_schema_shape w :
  let r := update_schema dotenv prepare produce_migrations apply_ddl w in
  exists evs,
    trace (state_of r) = trace w ++ evs
    /\ Forall (fun ev => schema_event ev = true) evs
    /\ count is_Begin evs = count is_Commit evs + count is_Rollback evs
    /\ (txn w = None -> txn (state_of r) = None)
    /\ initialized (state_of r) = initialized w
    /\ SyncSession (state_of r) = SyncSession w
    /\ AsyncSession (state_of r) = AsyncSession w
    /\ count is_Connect evs = count is_Begin evs
    /\ count is_Connect evs
       = match SyncSession w, prepare (live w) with
         | Some _, Some _ => 1
         | _, _ => 0
         end.
Proof.
  cbv zeta. unfold update_schema.
  destruct (SyncSession w) as [session |] eqn:Hs;
    [| cbn [state_of]; exists []; rewrite app_nil_r; repeat split; auto].
  destruct (prepare (live w)) as [s |];
    [| cbn [state_of]; exists []; rewrite app_nil_r; repeat split; auto].
  unfold bind, tell.
  match goal with
  | |- context [migrate _ _ _ ?w0] =>
      set (w1 := w0);
      destruct (migrate_shape w1)
        as (url & mid & last & w2 & Hrun & Ht & Hq & Hlast & Htxn
            & Hi & Hss & Has & _)
  end.
  rewrite Hrun. cbn [state_of trace emit txn initialized SyncSession AsyncSession].
  destruct (quiet_counts mid Hq) as (Hb & Hc & Hr & _ & Hsch).
  exists ([SessionExecute "SET client_encoding TO 'UTF8'";
           SessionExecute "CREATE EXTENSION IF NOT EXISTS pgcrypto";
           SessionCommit; LogInfo "Binding schema to engine...";
           Reflect; CreateAll; LogInfo "Trying to update schema..."]
            ++ [Connect url; Begin] ++ mid ++ last
            ++ [LogInfo "Schema is ready"]).
  split.
  { rewrite Ht. unfold w1. cbn [trace emit set_live].
    repeat rewrite <- app_assoc. reflexivity. }
  split.
  { repeat (apply Forall_app; split); try exact Hsch;
      try (repeat constructor).
    destruct Hlast as [-> | (m & ->)]; repeat constructor. }
  split.
  { repeat rewrite count_app. rewrite Hb, Hc, Hr.
    destruct Hlast as [-> | (m & ->)]; reflexivity. }
  split; [intros _; exact Htxn |].
  unfold w1 in Hi, Hss, Has. cbn in Hi, Hss, Has.
  split; [congruence |]. split; [congruence |]. split; [congruence |].
  pose proof (quiet_no_connect mid Hq) as Hn.
  split.
  - repeat rewrite count_app. rewrite Hn, Hb.
    destruct Hlast as [-> | (m & ->)]; reflexivity.
  - repeat rewrite count_app. rewrite Hn.
    destruct Hlast as [-> | (m & ->)]; reflexivity.
Qed.

Lemma ensure_sessions_live w :
  live (ensure_async_session dotenv (ensure_sync_session dotenv w)) = live w.
Proof.
  unfold ensure_async_session, ensure_sync_session.
  destruct (SyncSession w).
  - destruct (AsyncSession w); [reflexivity |].
    now destruct (get_database_url dotenv (os_environ w) true).
  - destruct (get_database_url dotenv (os_environ w) false) as [url env].
    cbn [AsyncSession os_environ emit set_sync set_environ].
    destruct (AsyncSession w); [reflexivity |].
    now destruct (get_database_url dotenv env true).
Qed.

(** A construction leaves the world [__update_schema] leaves, or the world
    with its two sessions when the flag is set. *)
Lemma GenericDAL_init_state w :
  let w2 := ensure_async_session dotenv (ensure_sync_session dotenv w) in
  state_of (GenericDAL_init dotenv prepare produce_migrations apply_ddl w)
  = if initialized w2 then w2
    else state_of (update_schema dotenv prepare produce_migrations apply_ddl w2).
Proof.
  cbv zeta. unfold GenericDAL_init.
  set (w2 := ensure_async_session dotenv (ensure_sync_session dotenv w)).
  destruct (initialized w2); cbn [negb]; [reflexivity |].
  unfold bind at 1 2 3. unfold call_private.
  rewrite lookup_update_schema, lookup_seed_database.
  rewrite (proj2 lookup_init_cron). cbn zeta.
  destruct (update_schema dotenv prepare produce_migrations apply_ddl w2)
    as [[] w3 | e w3]; [| reflexivity].
  unfold seed_database. destruct (SyncSession w3); reflexivity.
Qed.

(** The first lines of [__init__] create each engine that is missing, and
    nothing else. *)
Lemma ensure_sessions_trace w :
  let w2 := ensure_async_session dotenv (ensure_sync_session dotenv w) in
  exists es ea,
    trace w2 = trace w ++ es ++ ea
    /\ match SyncSession w with
       | Some _ => es = []
       | None => exists url, es = [CreateEngine url]
       end
    /\ match AsyncSession w with
       | Some _ => ea = []
       | None => exists url, ea = [CreateAsyncEngine url]
       end
    /\ SyncSession w2 <> None /\ AsyncSession w2 <> None
    /\ txn w2 = txn w /\ initialized w2 = initialized w.
Proof.
  cbv zeta. unfold ensure_async_session, ensure_sync_session.
  destruct (SyncSession w) as [session |] eqn:Hs.
  - destruct (AsyncSession w) as [asession |] eqn:Ha.
    + exists [], []. rewrite Hs, Ha. cbn [app]. rewrite app_nil_r.
      repeat split; congruence.
    + destruct (get_database_url dotenv (os_environ w) true) as [url env].
      exists [], [CreateAsyncEngine url]. cbn. rewrite Hs.
      repeat split; try congruence. now exists url.
  - destruct (get_database_url dotenv (os_environ w) false) as [url env].
    cbn [AsyncSession os_environ emit set_sync set_environ].
    destruct (AsyncSession w) as [asession |] eqn:Ha.
    + exists [CreateEngine url], []. cbn.
      repeat split; try congruence. now exists url.
    + destruct (get_database_url dotenv env true) as [url' env'].
      exists [CreateEngine url], [CreateAsyncEngine url']. cbn.
      rewrite <- app_assoc.
      repeat split; try congruence; eexists; reflexivity.
Qed.

End PipelineFacts.

(** X7. Whatever the engine of the class (a PostgreSQL engine, another
    one, or none at all), a migration step returns normally, begins exactly
    one transaction and ends it exactly once, by a commit or by a rollback,
    logs an error exactly when it rolls back, and leaves no transaction
    open. *)
Theorem migrate_closes_its_transaction {database : Type} (dotenv : environ)
        (produce_migrations : database -> list MigrateOperation)
        (apply_ddl : MigrateOperation -> database -> option database)
        (w : World database) :
  exists (evs : list event) (w' : World database),
    migrate dotenv produce_migrations apply_ddl w = Return tt w'
    /\ trace w' = trace w ++ evs
    /\ txn w' = None
    /\ count is_Begin evs = 1
    /\ count is_Commit evs + count is_Rollback evs = 1
    /\ count is_LogError evs = count is_Rollback evs.
Proof.
  destruct (migrate_shape database dotenv produce_migrations apply_ddl w)
    as (url & mid & last & w' & Hrun & Ht & Hq & Hlast & Htxn & _).
  destruct (quiet_counts mid Hq) as (Hb & Hc & Hr & He & _).
  exists ([Connect url; Begin] ++ mid ++ last), w'.
  repeat (split; [assumption |]).
  repeat rewrite count_app. rewrite Hb, Hc, Hr, He.
  destruct Hlast as [-> | (m & ->)]; repeat split.
Qed.

Section RunFacts.
Variable database entity : Type.
Variable dotenv : environ.
Variable prepare : database -> option database.
Variable produce_migrations : database -> list MigrateOperation.
Variable apply_ddl : MigrateOperation -> database -> option database.
Variable attached : entity -> bool.
Variable delete_row : entity -> database -> option database.

Lemma settled_step (w w' : World database) (evs : list event) :
  settled w ->
  trace w' = trace w ++ evs ->
  Forall (fun ev => is_CreateEngine ev = false
                    /\ is_CreateAsyncEngine ev = false) evs ->
  count is_Begin evs = count is_Commit evs + count is_Rollback evs ->
  count is_Connect evs = count is_Begin evs ->
  txn w' = None ->
  SyncSession w' = SyncSession w ->
  AsyncSession w' = AsyncSession w ->
  settled w'.
Proof.
  intros (H1 & H2 & H3 & H4 & H5) Ht Hq Hbal Hcon Htxn Hs Ha.
  unfold settled. rewrite Ht, Hs, Ha. repeat rewrite count_app.
  assert (Hce : count is_CreateEngine evs = 0).
  { apply count_none. eapply Forall_impl; [| exact Hq]. now intros ev []. }
  assert (Hcae : count is_CreateAsyncEngine evs = 0).
  { apply count_none. eapply Forall_impl; [| exact Hq]. now intros ev []. }
  repeat split; try assumption; lia.
Qed.

Lemma schema_event_no_engine (ev : event) :
  schema_event ev = true ->
  is_CreateEngine ev = false /\ is_CreateAsyncEngine ev = false.
Proof. destruct ev; cbn; intros H; split; congruence. Qed.

Lemma settled_accessor (obj : entity) (w : World database) :
  settled w ->
  settled (state_of ((session_delete attached obj
                        >> session_commit delete_row obj >> ret true) w)).
Proof.
  intros Hw. rewrite delete_and_commit.
  destruct (attached obj); [| exact Hw].
  destruct (delete_row obj (live w)) as [s |]; cbn [state_of].
  - apply (settled_step w _ [SessionDelete; SessionCommit] Hw);
      try reflexivity; try (apply Hw).
    + cbn. now rewrite <- app_assoc.
    + repeat constructor.
  - apply (settled_step w _ [SessionDelete] Hw);
      try reflexivity; try (apply Hw).
    repeat constructor.
Qed.

Lemma reachable_settled (w : World database) :
  reachable dotenv prepare produce_migrations apply_ddl attached delete_row w ->
  settled w.
Proof.
  induction 1 as [env db | w Hw IH | obj w Hw IH | obj w Hw IH].
  - repeat split.
  - rewrite GenericDAL_init_state.
    destruct (ensure_sessions_trace database dotenv w)
      as (es & ea & Ht & Hes & Hea & Hs & Ha & Htxn & _).
    set (w2 := ensure_async_session dotenv (ensure_sync_session dotenv w)) in *.
    assert (H2 : settled w2).
    { destruct IH as (H1 & H2 & H3 & H4 & H5).
      unfold settled. rewrite Ht, Htxn. repeat rewrite count_app.
      destruct (SyncSession w2); [| contradiction].
      destruct (AsyncSession w2); [| contradiction].
      rewrite H1, H2.
      destruct (SyncSession w); [subst es | destruct Hes as (u & ->)];
        (destruct (AsyncSession w); [subst ea | destruct Hea as (u' & ->)]);
        cbn; repeat split; try assumption; lia. }
    destruct (initialized w2); [exact H2 |].
    destruct (update_schema_shape database dotenv prepare produce_migrations
                apply_ddl w2)
      as (evs & Htr & Hq & Hbal & Ht2 & _ & Hss & Has & Hcon & _).
    apply (settled_step w2 _ evs H2); try assumption.
    + eapply Forall_impl; [| exact Hq]. apply schema_event_no_engine.
    + apply Ht2, H2.
  - unfold remove. destruct (SyncSession w); [| exact IH].
    now apply settled_accessor.
  - unfold async_remove. destruct (AsyncSession w); [| exact IH].
    now apply settled_accessor.
Qed.

End RunFacts.

(** X8. Over a run in which one construction or accessor call ends
    before the next begins, the engine of each pool (lines 69 and 83) is
    created at most once: in every world of a run the sync engine has been
    created once if the sync session exists and never otherwise, and the
    same holds of the async engine; after a construction both exist, so
    later constructions create none, although the flag [initialized] never
    gets set.  The migration creates one more engine of its own each time
    it runs (line 161): in every world as many as transactions begun, and a
    construction adds one exactly when the statements before the migration
    succeed. *)
Theorem engines_created_once {database entity : Type} (dotenv : environ)
        (prepare : database -> option database)
        (produce_migrations : database -> list MigrateOperation)
        (apply_ddl : MigrateOperation -> database -> option database)
        (attached : entity -> bool)
        (delete_row : entity -> database -> option database)
        (w : World database) :
  reachable dotenv prepare produce_migrations apply_ddl attached delete_row w ->
  count is_CreateEngine (trace w) <= 1
  /\ count is_CreateAsyncEngine (trace w) <= 1
  /\ (count is_CreateEngine (trace w) = 1 <-> SyncSession w <> None)
  /\ (count is_CreateAsyncEngine (trace w) = 1 <-> AsyncSession w <> None)
  /\ count is_Connect (trace w) = count is_Begin (trace w)
  /\ let w' := state_of (GenericDAL_init dotenv prepare produce_migrations
                                         apply_ddl w) in
     count is_CreateEngine (trace w') = 1
     /\ count is_CreateAsyncEngine (trace w') = 1
     /\ count is_Connect (trace w')
        = count is_Connect (trace w)
          + match prepare (live w) with Some _ => 1 | None => 0 end.
Proof.
  intros Hreach.
  pose proof (reachable_settled _ _ _ _ _ _ _ _ w Hreach)
    as (H1 & H2 & _ & _ & H5).
  pose proof (reachable_settled _ _ _ _ _ _ _ _ _
                (reach_init _ _ _ _ _ _ _ _ w Hreach)) as (H1' & H2' & _).
  pose proof (reachable_invariant _ _ _ _ _ _ _ _ w Hreach) as (Hflag & _).
  assert (Hs' : SyncSession (state_of (GenericDAL_init dotenv prepare
                   produce_migrations apply_ddl w)) <> None
                /\ AsyncSession (state_of (GenericDAL_init dotenv prepare
                     produce_migrations apply_ddl w)) <> None
                /\ count is_Connect
                     (trace (state_of (GenericDAL_init dotenv prepare
                               produce_migrations apply_ddl w)))
                   = count is_Connect (trace w)
                     + match prepare (live w) with Some _ => 1 | None => 0 end).
  { rewrite GenericDAL_init_state.
    pose proof (ensure_sessions_live database dotenv w) as Hlive.
    destruct (ensure_sessions_trace database dotenv w)
      as (es & ea & Ht & Hes & Hea & Hs & Ha & _ & Hi).
    set (w2 := ensure_async_session dotenv (ensure_sync_session dotenv w)) in *.
    rewrite Hflag in Hi. rewrite Hi.
    destruct (update_schema_shape database dotenv prepare produce_migrations
                apply_ddl w2) as (evs & Htr & _ & _ & _ & _ & Hss & Has & _ & Hcon).
    rewrite Hss, Has, Htr, Ht. split; [exact Hs | split; [exact Ha |]].
    repeat rewrite count_app. rewrite Hcon, Hlive.
    assert (Hnone : count is_Connect es = 0 /\ count is_Connect ea = 0).
    { destruct (SyncSession w); [subst es | destruct Hes as (u & ->)];
        (destruct (AsyncSession w); [subst ea | destruct Hea as (u' & ->)]);
        split; reflexivity. }
    destruct Hnone as [-> ->].
    destruct (SyncSession w2); [| contradiction]. lia. }
  destruct Hs' as (Hs' & Ha' & Hc').
  rewrite H1, H2. cbv zeta. rewrite H1', H2'.
  split; [destruct (SyncSession w); lia |].
  split; [destruct (AsyncSession w); lia |].
  split; [destruct (SyncSession w); split; intros; congruence || lia |].
  split; [destruct (AsyncSession w); split; intros; congruence || lia |].
  split; [exact H5 |].
  split; [| split; [| exact Hc']].
  - destruct (SyncSession (state_of (GenericDAL_init dotenv prepare
                produce_migrations apply_ddl w))); [reflexivity | contradiction].
  - destruct (AsyncSession (state_of (GenericDAL_init dotenv prepare
                produce_migrations apply_ddl w))); [reflexivity | contradiction].
Qed.

Lemma engines_created_once_witness :
  let w1 := state_of (Demo.construct Demo.produce_migrations Demo.start) in
  let w2 := state_of (Demo.construct Demo.produce_migrations w1) in
  count is_CreateEngine (trace w2) = 1
  /\ count is_CreateAsyncEngine (trace w2) = 1
  /\ count is_Connect (trace w2) = count is_Connect (trace w1) + 1.
Proof.
  pose proof (engines_created_once Demo.dotenv Demo.prepare
                Demo.produce_migrations Demo.apply_ddl Demo.attached
                Demo.delete_row _
                (reach_init _ _ _ _ _ _ _ _ _
                   (reach_start _ _ _ _ _ _ _ _ Demo.environment [])))
    as (_ & _ & _ & _ & _ & H1 & H2 & H3).
  split; [exact H1 | split; [exact H2 | exact H3]].
Defined.

(** The steps of a thread, run without another thread in between, are the
    construction's. *)
Lemma sync_steps_alone {database : Type} (dotenv : environ)
      (w : World database) :
  let (pc, w1) := sync_step dotenv AtTest w in
  sync_step dotenv pc w1 = (PastSync, ensure_sync_session dotenv w).
Proof.
  unfold sync_step, ensure_sync_session.
  destruct (SyncSession w); [reflexivity |].
  now destruct (get_database_url dotenv (os_environ w) false).
Qed.

Lemma sync_step_bound {database : Type} (dotenv : environ) (pc : sync_pc)
      (w : World database) :
  count is_CreateEngine (trace (snd (sync_step dotenv pc w)))
  + match fst (sync_step dotenv pc w) with PastSync => 0 | _ => 1 end
  <= count is_CreateEngine (trace w)
     + match pc with PastSync => 0 | _ => 1 end.
Proof.
  destruct pc; cbn [sync_step].
  - destruct (SyncSession w); cbn; lia.
  - destruct (get_database_url dotenv (os_environ w) false) as [url env].
    cbn [fst snd trace emit set_sync set_environ]. rewrite count_app.
    cbn. lia.
  - cbn. lia.
Qed.

(** Each thread creates the engine at most once. *)
Lemma run_threads_bound {database : Type} (dotenv : environ)
      (schedule : list thread) :
  forall (pcs : sync_pc * sync_pc) (w : World database),
    count is_CreateEngine (trace (snd (run_threads dotenv schedule pcs w)))
    + pending (fst (run_threads dotenv schedule pcs w))
    <= count is_CreateEngine (trace w) + pending pcs.
Proof.
  induction schedule as [|t rest IH]; intros [pc1 pc2] w;
    cbn [run_threads fst snd]; [lia |].
  destruct t.
  - pose proof (sync_step_bound dotenv pc1 w) as Hstep.
    destruct (sync_step dotenv pc1 w) as [pc' w'].
    specialize (IH (pc', pc2) w'). unfold pending in *.
    cbn [fst snd] in *. lia.
  - pose proof (sync_step_bound dotenv pc2 w) as Hstep.
    destruct (sync_step dotenv pc2 w) as [pc' w'].
    specialize (IH (pc1, pc') w'). unfold pending in *.
    cbn [fst snd] in *. lia.
Qed.

(** X16. The pool is not safe against constructions that interleave: the
    test of line 67 is outside the lock and lines 68-79 do not repeat it.
    From a class without a sync session, two threads that construct a
    [GenericDAL] one after the other create one engine, as the sequential
    constructor does; when both run the test before either takes the lock,
    each creates an engine, and the class keeps the one assigned last.
    Whatever the schedule, a thread creates no more than one. *)
Theorem interleaved_constructions_create_two_engines {database : Type}
        (dotenv : environ) (w : World database) :
  SyncSession w = None ->
  let one_by_one :=
    run_threads dotenv [First; First; Second; Second] (AtTest, AtTest) w in
  let interleaved :=
    run_threads dotenv [First; Second; First; Second] (AtTest, AtTest) w in
  one_by_one
  = ((PastSync, PastSync),
     ensure_sync_session dotenv (ensure_sync_session dotenv w))
  /\ count is_CreateEngine (trace (snd one_by_one))
     = count is_CreateEngine (trace w) + 1
  /\ fst interleaved = (PastSync, PastSync)
  /\ count is_CreateEngine (trace (snd interleaved))
     = count is_CreateEngine (trace w) + 2
  /\ (exists url1 url2,
        trace (snd interleaved)
        = trace w ++ [CreateEngine url1; CreateEngine url2]
        /\ SyncEngine (snd interleaved) = Some (create_engine url2))
  /\ (forall (schedule : list thread) (w0 : World database),
        count is_CreateEngine
              (trace (snd (run_threads dotenv schedule (AtTest, AtTest) w0)))
        <= count is_CreateEngine (trace w0) + 2).
Proof.
  intros Hs one_by_one interleaved.
  assert (Hlast : forall (schedule : list thread) (w0 : World database),
             count is_CreateEngine
               (trace (snd (run_threads dotenv schedule (AtTest, AtTest) w0)))
             <= count is_CreateEngine (trace w0) + 2).
  { intros schedule w0.
    pose proof (run_threads_bound dotenv schedule (AtTest, AtTest) w0) as H.
    unfold pending at 2 in H. cbn [fst snd] in H. lia. }
  assert (Htest : sync_step dotenv AtTest w = (AtLock, w))
    by (cbn [sync_step]; now rewrite Hs).
  assert (Hsync : ensure_sync_session dotenv (ensure_sync_session dotenv w)
                  = snd (sync_step dotenv AtLock w)).
  { unfold ensure_sync_session at 2. rewrite Hs. cbn [sync_step].
    now destruct (get_database_url dotenv (os_environ w) false). }
  rewrite Hsync. clear Hsync. subst one_by_one interleaved.
  cbn [run_threads fst snd]. rewrite Htest. cbn [fst snd]. rewrite Htest.
  cbn [sync_step].
  destruct (get_database_url dotenv (os_environ w) false) as [url1 env1].
  cbn [fst snd SyncSession emit set_sync set_environ os_environ].
  destruct (get_database_url dotenv env1 false) as [url2 env2].
  cbn [fst snd trace emit set_sync set_environ SyncEngine].
  split; [reflexivity |].
  cbn [sync_step fst snd trace emit set_sync set_environ].
  split; [rewrite count_app; reflexivity |].
  split; [reflexivity |].
  split; [rewrite <- app_assoc, count_app; reflexivity |].
  split; [| exact Hlast].
  exists url1, url2. split; [now rewrite <- app_assoc | reflexivity].
Qed.

Lemma interleaved_constructions_create_two_engines_witness :
  let w := class_defined Demo.environment ([] : Demo.database) in
  SyncSession w = None
  /\ count is_CreateEngine
       (trace (snd (run_threads Demo.dotenv [First; Second; First; Second]
                                (AtTest, AtTest) w))) = 2.
Proof.
  split; [reflexivity |].
  exact (proj1 (proj2 (proj2 (proj2
    (interleaved_constructions_create_two_engines Demo.dotenv
       (class_defined Demo.environment ([] : Demo.database)) eq_refl))))).
Defined.

(** X9. No run leaves a transaction open: in every world of a run no
    transaction is pending on the administrative connection, and as many
    transactions have been begun as have been committed or rolled back. *)
Theorem no_transaction_left_open {database entity : Type} (dotenv : environ)
        (prepare : database -> option database)
        (produce_migrations : database -> list MigrateOperation)
        (apply_ddl : MigrateOperation -> database -> option database)
        (attached : entity -> bool)
        (delete_row : entity -> database -> option database)
        (w : World database) :
  reachable dotenv prepare produce_migrations apply_ddl attached delete_row w ->
  txn w = None
  /\ count is_Begin (trace w)
     = count is_Commit (trace w) + count is_Rollback (trace w).
Proof.
  intros Hreach.
  pose proof (reachable_settled _ _ _ _ _ _ _ _ w Hreach) as (_ & _ & H3 & H4).
  now split.
Qed.

Lemma no_transaction_left_open_witness :
  let w := state_of (Demo.construct Demo.failing
             (state_of (Demo.construct Demo.failing Demo.start))) in
  txn w = None
  /\ count is_Begin (trace w)
     = count is_Commit (trace w) + count is_Rollback (trace w).
Proof.
  exact (no_transaction_left_open Demo.dotenv Demo.prepare
           Demo.failing Demo.apply_ddl Demo.attached Demo.delete_row _
           (reach_init _ _ _ _ _ _ _ _ _
              (reach_init _ _ _ _ _ _ _ _ _
                 (reach_start _ _ _ _ _ _ _ _ Demo.environment [])))).
Defined.

(** ** The reading accessor *)

Section QueryFacts.
Variable database attr value expr : Type.
Variable execute : Select attr value expr -> database -> option (list (row value)).
Variable cls : Mapped attr.

Lemma conditions_missing (before after : list (string * value))
      (key : string) (v : value) :
  Forall (fun kv => mapped_getattr cls (fst kv) <> None) before ->
  mapped_getattr cls key = None ->
  conditions cls (before ++ (key, v) :: after)
  = inl (AttributeError ("type object '" ++ mapped_name cls
                           ++ "' has no attribute '" ++ key ++ "'")).
Proof.
  intros Hbefore Hkey.
  induction Hbefore as [|[k x] before Hk _ IH]; cbn [app conditions fst] in *.
  - now rewrite Hkey.
  - destruct (mapped_getattr cls k); [| contradiction]. now rewrite IH.
Qed.

Lemma conditions_resolved (filters : list (string * value))
      (cs : list (attr * value)) :
  conditions cls filters = inr cs ->
  map snd cs = map snd filters
  /\ map (fun kv => mapped_getattr cls (fst kv)) filters
     = map (fun c => Some (fst c)) cs.
Proof.
  revert cs. induction filters as [|[k x] filters IH]; intros cs H;
    cbn [conditions] in H.
  - injection H as <-. split; reflexivity.
  - destruct (mapped_getattr cls k) as [a |] eqn:Hk; [| discriminate].
    destruct (conditions cls filters) as [e | cs']; [discriminate |].
    injection H as <-. destruct (IH cs' eq_refl) as [H1 H2].
    cbn [map fst snd]. rewrite H1, H2, Hk. split; reflexivity.
Qed.

End QueryFacts.

(** X10. A filter whose key is not an attribute of the class makes
    [async_get] raise [AttributeError] for the first such key, before any
    statement is executed. *)
Theorem async_get_unknown_filter {database attr value expr : Type}
        (execute : Select attr value expr -> database -> option (list (row value)))
        (cls : Mapped attr) (_func : option (func_arg expr))
        (_group _having _order : option expr) (_limit : option value)
        (before after : list (string * value)) (key : string) (v : value)
        (w : World database) :
  AsyncSession w <> None ->
  Forall (fun kv => mapped_getattr cls (fst kv) <> None) before ->
  mapped_getattr cls key = None ->
  async_get execute cls _func _group _having _order _limit
            (before ++ (key, v) :: after) w
  = Raise (AttributeError ("type object '" ++ mapped_name cls
                             ++ "' has no attribute '" ++ key ++ "'")) [].
Proof.
  intros Hs Hbefore Hkey. unfold async_get.
  destruct (AsyncSession w); [| contradiction].
  pose proof (conditions_missing attr value cls before after key v
                Hbefore Hkey) as Hc.
  destruct (before ++ (key, v) :: after) as [|f fs] eqn:Hf.
  - now destruct before.
  - now rewrite Hc.
Qed.

Lemma async_get_unknown_filter_witness :
  async_get Sample.no_rows Sample.device None None None None (Some "10")
            [("port", "80"); ("vlan", "7")] Demo.ready
  = Raise (AttributeError "type object 'Device' has no attribute 'vlan'") [].
Proof.
  apply (async_get_unknown_filter Sample.no_rows Sample.device None None None
           None (Some "10") [("port", "80")] [] "vlan" "7" Demo.ready).
  - discriminate.
  - repeat constructor. discriminate.
  - reflexivity.
Defined.

(** X11. When [async_get] returns, its session has executed exactly one
    statement.  The statement compares, in keyword order, one attribute of
    the class per filter with the value given; it selects what [_func]
    says (the class itself without [_func]) followed by the grouping
    expression when there is one; its limit is [_limit] as given.  The
    result has one element per row: the first column only when [_func] is
    [None] (so a grouping column is dropped), the whole row otherwise. *)
Theorem async_get_result {database attr value expr : Type}
        (execute : Select attr value expr -> database -> option (list (row value)))
        (cls : Mapped attr) (_func : option (func_arg expr))
        (_group _having _order : option expr) (_limit : option value)
        (filters : list (string * value)) (w : World database)
        (items : list (item value)) (executed : list (Select attr value expr)) :
  async_get execute cls _func _group _having _order _limit filters w
  = Return items executed ->
  exists stmt cs rows,
    executed = [stmt]
    /\ execute stmt (live w) = Some rows
    /\ conditions cls filters = inr cs
    /\ sel_where stmt = cs
    /\ map snd cs = map snd filters
    /\ map (fun kv => mapped_getattr cls (fst kv)) filters
       = map (fun c => Some (fst c)) cs
    /\ sel_columns stmt
       = selected_columns cls _func
           ++ match _group with Some g => [Selected g] | None => [] end
    /\ sel_limit stmt = _limit
    /\ items = match _func with
               | None => map (fun r => Scalar (fst r)) rows
               | Some _ => map Row rows
               end.
Proof.
  unfold async_get.
  destruct (AsyncSession w); [| discriminate].
  assert (Hclauses : forall s : Select attr value expr,
    sel_where (with_clauses _group _having _order _limit s) = sel_where s
    /\ sel_columns (with_clauses _group _having _order _limit s)
       = sel_columns s ++ match _group with Some g => [Selected g] | None => [] end
    /\ sel_limit (with_clauses _group _having _order _limit s)
       = match _limit with Some n => Some n | None => sel_limit s end).
  { intros s. unfold with_clauses.
    destruct _group, _having, _order, _limit; cbn;
      rewrite ?app_nil_r; repeat split; reflexivity. }
  assert (Hlimit : match _limit with Some n => Some n | None => None end = _limit)
    by now destruct _limit.
  destruct filters as [|f fs].
  - destruct (Hclauses (select (selected_columns cls _func)))
      as (Hw & Hc & Hl).
    destruct (execute _ (live w)) as [rows |] eqn:Hrun; [| discriminate].
    intros [= <- <-].
    eexists; exists [], rows. split; [reflexivity |].
    split; [exact Hrun |].
    rewrite Hw, Hc, Hl. cbn. rewrite Hlimit.
    repeat split; reflexivity.
  - destruct (conditions cls (f :: fs)) as [err | cs] eqn:Hcs; [discriminate |].
    destruct (Hclauses (where_ cs (select (selected_columns cls _func))))
      as (Hw & Hc & Hl).
    destruct (execute _ (live w)) as [rows |] eqn:Hrun; [| discriminate].
    intros [= <- <-].
    destruct (conditions_resolved attr value cls (f :: fs) cs Hcs) as [H1 H2].
    eexists; exists cs, rows. split; [reflexivity |].
    split; [exact Hrun |].
    rewrite Hw, Hc, Hl. cbn [sel_where sel_columns sel_limit where_ select app].
    rewrite Hlimit.
    repeat split; try reflexivity; assumption.
Qed.

Lemma async_get_result_witness :
  exists stmt,
    async_get Sample.no_rows Sample.device None (Some "device.port") None None
              (Some "0") [("port", "80")] Demo.ready
    = Return [] [stmt]
    /\ sel_columns stmt = [Entity "Device"; Selected "device.port"]
    /\ sel_limit stmt = Some "0".
Proof.
  destruct (async_get_result Sample.no_rows Sample.device None
              (Some "device.port") None None (Some "0") [("port", "80")]
              Demo.ready [] _ eq_refl)
    as (stmt & cs & rows & Hex & _ & _ & _ & _ & _ & Hcols & Hlim & _).
  exists stmt. injection Hex as <-.
  split; [reflexivity | split; assumption].
Defined.

(** ** The Redis context manager *)

Lemma open_client_spec (to : RedisPy.target) (st : RedisPy.State) :
  fst (RedisPy.open_client to st) = RedisPy.next_client (snd st)
  /\ RedisPy._redis (fst (snd (RedisPy.open_client to st)))
     = Some (RedisPy.next_client (snd st))
  /\ RedisPy.log (snd (snd (RedisPy.open_client to st)))
     = RedisPy.log (snd st) ++ [RedisPy.Opened (RedisPy.next_client (snd st)) to]
  /\ RedisPy.next_client (snd (snd (RedisPy.open_client to st)))
     = S (RedisPy.next_client (snd st)).
Proof. destruct st as [self s]. repeat split. Qed.

(** A [with] statement on a manager that opens a client and whose exit
    closes the client the manager holds. *)
Lemma with_stmt_closes {A : Type} (to_of : RedisPy.State -> RedisPy.target)
      (exit_ : RedisPy.State -> RedisPy.State)
      (body : nat -> RedisPy.State -> outcome A RedisPy.State)
      (st : RedisPy.State) :
  (forall s, exit_ s = RedisPy.exit s) ->
  (forall r s, RedisPy._redis (fst (state_of (body r s)))
               = RedisPy._redis (fst s)) ->
  let enter_ := fun s => RedisPy.open_client (to_of s) s in
  let c := RedisPy.next_client (snd st) in
  let st1 := snd (enter_ st) in
  let result := RedisPy.with_stmt enter_ exit_ body st in
  RedisPy.log (snd (state_of result))
  = RedisPy.log (snd (state_of (body c st1))) ++ [RedisPy.Closed c]
  /\ RedisPy._redis (fst (state_of result)) = Some c
  /\ match body c st1 with
     | Return a _ => exists s, result = Return a s
     | Raise e _ => exists s, result = Raise e s
     end.
Proof.
  intros Hexit Hbody. cbv zeta. unfold RedisPy.with_stmt.
  destruct (open_client_spec (to_of st) st) as (Hc & Hr & _).
  destruct (RedisPy.open_client (to_of st) st) as [c st1].
  cbn [fst snd] in *. subst c.
  specialize (Hbody (RedisPy.next_client (snd st)) st1).
  destruct (body (RedisPy.next_client (snd st)) st1) as [a s2 | e s2];
    cbn [state_of] in *; rewrite Hexit; unfold RedisPy.exit;
    rewrite Hbody, Hr; cbn; repeat split; try congruence; eexists; reflexivity.
Qed.

(** X12. [with Redis(...) as r] and [async with Redis(...) as r] close
    the client they opened, once and as the last thing they do, whether
    the body returns or raises, and hand on what the body returned or
    raised; the body is any code that leaves the attribute [_redis] of the
    manager alone. *)
Theorem with_Redis_closes_its_client {A : Type}
        (body : nat -> RedisPy.State -> outcome A RedisPy.State)
        (st : RedisPy.State) :
  (forall r s, RedisPy._redis (fst (state_of (body r s)))
               = RedisPy._redis (fst s)) ->
  let c := RedisPy.next_client (snd st) in
  let sync := RedisPy.with_stmt RedisPy.enter RedisPy.exit body st in
  let async := RedisPy.with_stmt RedisPy.aenter RedisPy.aexit body st in
  (fst (RedisPy.enter st) = c
   /\ RedisPy.log (snd (state_of sync))
      = RedisPy.log (snd (state_of (body c (snd (RedisPy.enter st)))))
          ++ [RedisPy.Closed c]
   /\ match body c (snd (RedisPy.enter st)) with
      | Return a _ => exists s, sync = Return a s
      | Raise e _ => exists s, sync = Raise e s
      end)
  /\ (fst (RedisPy.aenter st) = c
      /\ RedisPy.log (snd (state_of async))
         = RedisPy.log (snd (state_of (body c (snd (RedisPy.aenter st)))))
             ++ [RedisPy.Closed c]
      /\ match body c (snd (RedisPy.aenter st)) with
         | Return a _ => exists s, async = Return a s
         | Raise e _ => exists s, async = Raise e s
         end).
Proof.
  intros Hbody. cbv zeta. split.
  - destruct (with_stmt_closes
                (fun s => RedisPy.HostPortDb (RedisPy.host (fst s)) 6379
                                             (RedisPy.db (fst s)))
                RedisPy.exit body st (fun _ => eq_refl) Hbody)
      as (Hlog & _ & Hres).
    split; [apply open_client_spec | split; [exact Hlog | exact Hres]].
  - destruct (with_stmt_closes
                (fun s => RedisPy.FromUrl
                            ("redis://" ++ RedisPy.host (fst s) ++ ":6379/"
                               ++ RedisPy.str_int (RedisPy.db (fst s))))
                RedisPy.aexit body st (fun _ => eq_refl) Hbody)
      as (Hlog & _ & Hres).
    split; [apply open_client_spec | split; [exact Hlog | exact Hres]].
Qed.

Lemma with_Redis_closes_its_client_witness :
  RedisPy.log (snd (state_of (RedisPy.with_stmt RedisPy.enter RedisPy.exit
                                                Sample.broken Sample.cache)))
  = [RedisPy.Opened 0 (RedisPy.HostPortDb "db" 6379 1); RedisPy.Closed 0]
  /\ exists s, RedisPy.with_stmt RedisPy.enter RedisPy.exit
                                 Sample.broken Sample.cache
               = Raise DatabaseError s.
Proof.
  destruct (with_Redis_closes_its_client Sample.broken Sample.cache
              (fun _ _ => eq_refl)) as [(_ & Hlog & Hres) _].
  split; [exact Hlog | exact Hres].
Defined.

(** X13. A [Redis] object holds one client only.  When a [with]
    statement on it is nested in another [with] statement on the same
    object, both exits close the client of the inner statement, and the
    client of the outer one is not closed by either. *)
Theorem nested_with_closes_inner_twice {A : Type}
        (inner : nat -> nat -> RedisPy.State -> outcome A RedisPy.State)
        (st : RedisPy.State) :
  (forall a b s, RedisPy._redis (fst (state_of (inner a b s)))
                 = RedisPy._redis (fst s)) ->
  let a := RedisPy.next_client (snd st) in
  let b := S a in
  let st2 := snd (RedisPy.enter (snd (RedisPy.enter st))) in
  let result :=
    RedisPy.with_stmt RedisPy.enter RedisPy.exit
      (fun a' => RedisPy.with_stmt RedisPy.enter RedisPy.exit (inner a')) st in
  RedisPy.log (snd (state_of result))
  = RedisPy.log (snd (state_of (inner a b st2)))
      ++ [RedisPy.Closed b; RedisPy.Closed b]
  /\ length (filter (RedisPy.closed a) (RedisPy.log (snd (state_of result))))
     = length (filter (RedisPy.closed a)
                      (RedisPy.log (snd (state_of (inner a b st2))))).
Proof.
  intros Hinner. cbv zeta.
  set (to_of := fun s : RedisPy.State =>
                  RedisPy.HostPortDb (RedisPy.host (fst s)) 6379
                                     (RedisPy.db (fst s))).
  remember (RedisPy.next_client (snd st)) as a eqn:Ha.
  assert (Hlog :
    RedisPy.log (snd (state_of
      (RedisPy.with_stmt RedisPy.enter RedisPy.exit
         (fun a' => RedisPy.with_stmt RedisPy.enter RedisPy.exit (inner a'))
         st)))
    = RedisPy.log (snd (state_of
        (inner a (S a) (snd (RedisPy.enter (snd (RedisPy.enter st)))))))
        ++ [RedisPy.Closed (S a); RedisPy.Closed (S a)]).
  { unfold RedisPy.with_stmt at 1.
    destruct (open_client_spec (to_of st) st) as (Hc & _ & _ & Hnext).
    change (RedisPy.open_client (to_of st) st) with (RedisPy.enter st) in *.
    destruct (RedisPy.enter st) as [c st1]. cbn [fst snd] in *.
    rewrite <- Ha in Hc, Hnext. subst c.
    destruct (with_stmt_closes to_of RedisPy.exit (inner a) st1
                (fun _ => eq_refl) (Hinner a)) as (Hl & Hr & _).
    change (fun s => RedisPy.open_client (to_of s) s) with RedisPy.enter in *.
    rewrite Hnext in Hl, Hr.
    destruct (RedisPy.with_stmt RedisPy.enter RedisPy.exit (inner a) st1)
      as [x s3 | e s3]; cbn [state_of] in *;
      unfold RedisPy.exit; rewrite Hr; cbn [snd RedisPy.log];
      rewrite Hl, <- app_assoc; reflexivity. }
  split; [exact Hlog |].
  rewrite Hlog, filter_app, length_app. cbn [filter RedisPy.closed].
  replace (Nat.eqb a (S a)) with false; [cbn; lia |].
  symmetry. apply Nat.eqb_neq. lia.
Qed.

Lemma nested_with_closes_inner_twice_witness :
  RedisPy.log (snd (state_of
    (RedisPy.with_stmt RedisPy.enter RedisPy.exit
       (fun a => RedisPy.with_stmt RedisPy.enter RedisPy.exit Sample.ping)
       Sample.cache)))
  = [RedisPy.Opened 0 (RedisPy.HostPortDb "db" 6379 1);
     RedisPy.Opened 1 (RedisPy.HostPortDb "db" 6379 1);
     RedisPy.Closed 1; RedisPy.Closed 1].
Proof.
  exact (proj1 (nested_with_closes_inner_twice (fun _ => Sample.ping)
                  Sample.cache (fun _ _ _ => eq_refl))).
Defined.

(** ** The Swagger UI parameters *)

Section SwaggerFacts.
Variable jsonable : Type.
Implicit Types (d given : list (string * jsonable)) (k : string) (v : jsonable).

Lemma dict_get_set d k v k' :
  dict_get (dict_set d k v) k'
  = if String.eqb k k' then Some v else dict_get d k'.
Proof.
  induction d as [|[k0 v0] d IH]; cbn [dict_set dict_get].
  - reflexivity.
  - destruct (String.eqb k0 k) eqn:H0; cbn [dict_get].
    + apply String.eqb_eq in H0. subst k0.
      destruct (String.eqb k k'); reflexivity.
    + rewrite IH. destruct (String.eqb k0 k') eqn:H1; [| reflexivity].
      apply String.eqb_eq in H1. subst k'. now rewrite String.eqb_sym, H0.
Qed.

Lemma dict_get_in d k : dict_get d k <> None <-> In k (keys d).
Proof.
  induction d as [|[k0 v0] d IH]; cbn [dict_get keys map fst In].
  - split; [congruence | contradiction].
  - destruct (String.eqb k0 k) eqn:H0.
    + apply String.eqb_eq in H0. split; [now left | discriminate].
    + apply String.eqb_neq in H0. rewrite IH. unfold keys. tauto.
Qed.

Lemma has_key_in d k : has_key d k = true <-> In k (keys d).
Proof.
  rewrite <- dict_get_in. unfold has_key.
  destruct (dict_get d k); split; congruence.
Qed.

Lemma has_key_keys d d' k : keys d = keys d' -> has_key d k = has_key d' k.
Proof.
  intros H. destruct (has_key d k) eqn:H1, (has_key d' k) eqn:H2;
    try reflexivity.
  - apply has_key_in in H1. rewrite H in H1. apply has_key_in in H1. congruence.
  - apply has_key_in in H2. rewrite <- H in H2. apply has_key_in in H2.
    congruence.
Qed.

Lemma keys_dict_set d k v :
  keys (dict_set d k v) = if has_key d k then keys d else keys d ++ [k].
Proof.
  unfold has_key.
  induction d as [|[k0 v0] d IH]; cbn [dict_set dict_get keys map fst app].
  - reflexivity.
  - destruct (String.eqb k0 k) eqn:H0; cbn [keys map fst]; [reflexivity |].
    fold (keys (dict_set d k v)). rewrite IH.
    destruct (dict_get d k); reflexivity.
Qed.

Lemma NoDup_dict_set d k v : NoDup (keys d) -> NoDup (keys (dict_set d k v)).
Proof.
  intros H. rewrite keys_dict_set.
  destruct (has_key d k) eqn:Hk; [exact H |].
  apply NoDup_app; [exact H | repeat constructor; intros [] |].
  intros x Hx [<- | []]. apply has_key_in in Hx. congruence.
Qed.

Lemma dict_set_absent d k v :
  has_key d k = false -> dict_set d k v = d ++ [(k, v)].
Proof.
  unfold has_key.
  induction d as [|[k0 v0] d IH]; cbn [dict_set dict_get app];
    [reflexivity |].
  destruct (String.eqb k0 k); [discriminate |].
  intros H. now rewrite IH.
Qed.

Lemma dict_set_present d k v :
  NoDup (keys d) -> has_key d k = true ->
  dict_set d k v
  = map (fun kv => if String.eqb (fst kv) k then (fst kv, v) else kv) d.
Proof.
  intros Hnd. unfold has_key.
  induction d as [|[k0 v0] d IH]; cbn [dict_set dict_get map fst];
    [discriminate |].
  inversion Hnd as [|x l Hnotin Hnd']; subst.
  destruct (String.eqb k0 k) eqn:H0.
  - intros _. f_equal.
    apply String.eqb_eq in H0. subst k0.
    clear IH Hnd Hnd'. induction d as [|[k1 v1] d IH]; [reflexivity |].
    cbn [map fst]. cbn [keys map fst In] in Hnotin.
    destruct (String.eqb k1 k) eqn:H1.
    + apply String.eqb_eq in H1. tauto.
    + rewrite <- IH; [reflexivity | unfold keys in *; tauto].
  - intros H. now rewrite IH.
Qed.

(** What the dictionary is after [update]: the items of the defaults in
    their order, each with the value given for its key when there is one,
    then the items given under new keys in their order. *)
Lemma dict_update_shape given : forall d,
  NoDup (keys d) -> NoDup (keys given) ->
  dict_update d given
  = map (fun kv => (fst kv, match dict_get given (fst kv) with
                            | Some x => x
                            | None => snd kv
                            end)) d
    ++ filter (fun kv => negb (has_key d (fst kv))) given.
Proof.
  induction given as [|[k v] given IH]; intros d Hd Hg.
  - cbn [dict_update dict_get filter]. rewrite app_nil_r.
    rewrite <- (map_id d) at 1. apply map_ext. now intros [].
  - cbn [dict_update].
    cbn [keys map fst] in Hg. inversion Hg as [|x l Hk Hg']; subst.
    fold (keys given) in Hk, Hg'.
    assert (Hrest : dict_get given k = None).
    { destruct (dict_get given k) eqn:H; [| reflexivity].
      exfalso. apply Hk, dict_get_in. congruence. }
    rewrite (IH (dict_set d k v) (NoDup_dict_set d k v Hd) Hg').
    cbn [filter fst].
    destruct (has_key d k) eqn:Hkd; cbn [negb].
    + rewrite (dict_set_present d k v Hd Hkd), map_map. f_equal.
      * apply map_ext. intros [k0 v0]. cbn [fst snd dict_get].
        rewrite (String.eqb_sym k k0).
        destruct (String.eqb k0 k) eqn:H0; cbn [fst snd]; [| reflexivity].
        apply String.eqb_eq in H0. subst k0. now rewrite Hrest.
      * apply filter_ext. intros [k1 v1]. cbn [fst]. f_equal.
        apply has_key_keys. unfold keys. rewrite map_map.
        apply map_ext. intros [k0 v0]. cbn [fst].
        now destruct (String.eqb k0 k).
    + rewrite (dict_set_absent d k v Hkd), map_app. cbn [map fst snd].
      rewrite Hrest, <- app_assoc. cbn [app]. f_equal.
      * apply map_ext_in. intros [k0 v0] Hin. cbn [fst snd dict_get].
        destruct (String.eqb k k0) eqn:H0; [| reflexivity].
        apply String.eqb_eq in H0. subst k0. exfalso.
        assert (Hin' : In k (keys d)) by (apply in_map_iff; now exists (k, v0)).
        apply has_key_in in Hin'. congruence.
      * f_equal. apply filter_ext_in. intros [k1 v1] Hin. cbn [fst]. f_equal.
        unfold has_key. 
        assert (Hne : String.eqb k k1 = false).
        { apply String.eqb_neq. intros ->. apply Hk.
          apply in_map_iff. now exists (k1, v1). }
        clear - Hne. induction d as [|[k0 v0] d IHd]; cbn [app dict_get].
        -- now rewrite Hne.
        -- destruct (String.eqb k0 k1); [reflexivity | exact IHd].
Qed.

Lemma dict_update_get given : forall d k,
  NoDup (keys given) ->
  dict_get (dict_update d given) k
  = match dict_get given k with
    | Some x => Some x
    | None => dict_get d k
    end.
Proof.
  induction given as [|[k0 v0] given IH]; intros d k Hg; [reflexivity |].
  cbn [dict_update dict_get].
  cbn [keys map fst] in Hg. inversion Hg as [|x l Hk Hg']; subst.
  fold (keys given) in Hk, Hg'.
  rewrite (IH _ _ Hg'), dict_get_set.
  destruct (String.eqb k0 k) eqn:H0; [| reflexivity].
  apply String.eqb_eq in H0. subst k0.
  destruct (dict_get given k) eqn:H; [| reflexivity].
  exfalso. apply Hk, dict_get_in. congruence.
Qed.

Lemma dict_update_NoDup given : forall d,
  NoDup (keys d) -> NoDup (keys (dict_update d given)).
Proof.
  induction given as [|[k v] given IH]; intros d Hd; [exact Hd |].
  cbn [dict_update]. apply IH, NoDup_dict_set, Hd.
Qed.

Lemma parameter_lines_app (dumps_key : string -> string)
      (dumps : jsonable -> string) (a b : list (string * jsonable)) :
  parameter_lines dumps_key dumps (a ++ b)
  = (parameter_lines dumps_key dumps a
       ++ parameter_lines dumps_key dumps b)%string.
Proof.
  induction a as [|[k v] a IH]; cbn [app parameter_lines]; [reflexivity |].
  rewrite IH. now repeat rewrite append_assoc.
Qed.

End SwaggerFacts.

(** X14. The page configures the defaults first, in their order, each
    with the value the caller gave for that key when there is one, and then
    the parameters the caller gave under new keys, in the caller's order;
    the lines written by the loop follow that order. *)
Theorem swagger_parameters_order {jsonable : Type}
        (dumps_key : string -> string) (dumps : jsonable -> string)
        (defaults given : list (string * jsonable)) :
  NoDup (keys defaults) -> NoDup (keys given) ->
  let overridden :=
    map (fun kv => (fst kv, match dict_get given (fst kv) with
                            | Some x => x
                            | None => snd kv
                            end)) defaults in
  let added := filter (fun kv => negb (has_key defaults (fst kv))) given in
  current_swagger_ui_parameters defaults (Some given) = overridden ++ added
  /\ parameter_lines dumps_key dumps
       (current_swagger_ui_parameters defaults (Some given))
     = (parameter_lines dumps_key dumps overridden
          ++ parameter_lines dumps_key dumps added)%string.
Proof.
  intros Hd Hg overridden added.
  assert (H : current_swagger_ui_parameters defaults (Some given)
              = overridden ++ added).
  { unfold current_swagger_ui_parameters.
    destruct given as [|item given'].
    - pose proof (dict_update_shape jsonable [] defaults Hd Hg) as H.
      exact H.
    - apply dict_update_shape; assumption. }
  split; [exact H |]. rewrite H. apply parameter_lines_app.
Qed.

Lemma swagger_parameters_order_witness :
  current_swagger_ui_parameters Sample.defaults (Some Sample.given)
  = [("dom_id", "#swagger-ui"); ("deepLinking", "false");
     ("layout", "BaseLayout"); ("docExpansion", "none")].
Proof.
  refine (proj1 (swagger_parameters_order (fun k => k) (fun v => v)
                   Sample.defaults Sample.given _ _)).
  - repeat constructor; cbn; intuition discriminate.
  - repeat constructor; cbn; intuition discriminate.
Defined.

(** X15. In the parameters of the page a key has the value the caller
    gave for it, and the default value when the caller gave none; no key
    occurs twice, so no parameter is written twice; and with no parameters
    given ([None] or an empty dictionary) the page has the defaults. *)
Theorem swagger_parameters_lookup {jsonable : Type}
        (defaults given : list (string * jsonable)) :
  NoDup (keys defaults) -> NoDup (keys given) ->
  (forall key,
      dict_get (current_swagger_ui_parameters defaults (Some given)) key
      = match dict_get given key with
        | Some v => Some v
        | None => dict_get defaults key
        end)
  /\ NoDup (keys (current_swagger_ui_parameters defaults (Some given)))
  /\ current_swagger_ui_parameters defaults None = defaults
  /\ current_swagger_ui_parameters defaults (Some []) = defaults.
Proof.
  intros Hd Hg.
  assert (H : current_swagger_ui_parameters defaults (Some given)
              = dict_update defaults given) by now destruct given.
  rewrite H. split; [| split; [| split; reflexivity]].
  - intros key. now apply dict_update_get.
  - now apply dict_update_NoDup.
Qed.

Lemma swagger_parameters_lookup_witness :
  dict_get (current_swagger_ui_parameters Sample.defaults (Some Sample.given))
           "deepLinking" = Some "false"
  /\ dict_get (current_swagger_ui_parameters Sample.defaults (Some Sample.given))
              "layout" = Some "BaseLayout".
Proof.
  assert (Hd : NoDup (keys Sample.defaults))
    by (repeat constructor; cbn; intuition discriminate).
  assert (Hg : NoDup (keys Sample.given))
    by (repeat constructor; cbn; intuition discriminate).
  destruct (swagger_parameters_lookup Sample.defaults Sample.given Hd Hg)
    as [Hget _].
  split; [exact (Hget "deepLinking") | exact (Hget "layout")].
Defined.

Example aenter_url :
  RedisPy.log (snd (snd (RedisPy.aenter Sample.cache)))
  = [RedisPy.Opened 0 (RedisPy.FromUrl "redis://db:6379/1")].
Proof. reflexivity. Qed.

Example parameter_lines_sample :
  parameter_lines (fun k => "'" ++ k ++ "'")%string (fun v => v)
    (current_swagger_ui_parameters Sample.defaults (Some Sample.given))
  = ("'dom_id': #swagger-ui," ++ newline ++ "'deepLinking': false," ++ newline
       ++ "'layout': BaseLayout," ++ newline ++ "'docExpansion': none,"
       ++ newline)%string.
Proof. reflexivity. Qed.
